(** * TinyBling: a shallow embedding of the two firmware variants

    Sources embedded here:
    - [software/wof/TinyBlingWOF.ino]  (module [WOF],   the reactive "wheel of fortune")
    - [software/demo/TinyBling.ino]    (module [Bling], the ambient animation demo)

    Conventions.
    - [uint8_t] and [uint16_t] values are integers in [Z]; every place where
      the C code stores into an 8 or 16 bit object is written with [u8] or
      [u16] (reduction modulo 2^8 or 2^16).
    - The two pixel arrays are [list Z]; an indexed read is [rd], an indexed
      write is stdpp's [<[i:=v]>].  The C code never checks an index; every
      index the program computes is below 16 (loop counters, [& 0x0F],
      [prng(16)]), and stdpp's insert leaves the list alone out of range.
    - [NEO_sendByte] is inline assembly that clocks one byte out on the data
      pin.  It is modelled at the byte level: a function that "sends" returns
      the list of bytes in transmission order. *)

From Stdlib Require Import ZArith Lia Bool.
From stdpp Require Import base list.

Local Open Scope Z_scope.

(** ** Fixed width arithmetic *)

Definition u8 (z : Z) : Z := z mod 256.
Definition u16 (z : Z) : Z := z mod 65536.

(** Array read [a[i]]; the default is never observed for [i < length a]. *)
Definition rd (a : list Z) (i : nat) : Z := default 0 (a !! i).

(** [for (uint8_t i = 0; i < n; i++) body] as a left fold over [0 .. n-1]. *)
Definition for_upto {S : Type} (n : nat) (body : nat -> S -> S) (s : S) : S :=
  foldl (fun acc i => body i acc) s (seq 0 n).

(** [for (uint8_t i = n; i; i--) body]: the body runs at [n, n-1, .., 1]. *)
Fixpoint for_downto {S : Type} (n : nat) (body : nat -> S -> S) (s : S) : S :=
  match n with
  | O => s
  | Datatypes.S k => for_downto k body (body n s)
  end.

(** ** Wire order of one pixel (shared by both sketches, [NEO_GRB] is defined) *)

Definition NEO_sendByte (byte : Z) : list Z := [byte].

Definition NEO_writeColor (r g b : Z) : list Z :=
  NEO_sendByte g ++ NEO_sendByte r ++ NEO_sendByte b.

(** Number of channel bytes of an emitted pixel that are zero. *)
Definition zero_channels (bytes : list Z) : nat :=
  length (filter (fun x => x = 0) bytes).

(** ** The reactive sketch, TinyBlingWOF.ino *)

Module WOF.

(** Locals of [NEO_writeHue]. *)
Definition phase_of (hue : Z) : Z := Z.shiftr hue 6.
Definition step_of (hue : Z) : Z := u8 (Z.shiftl (Z.land hue 63) 2).
Definition nstep_of (hue : Z) : Z := u8 (Z.shiftl 63 2 - step_of hue).

Definition NEO_writeHue (hue : Z) : list Z :=
  let phase := phase_of hue in
  let step := step_of hue in
  let nstep := nstep_of hue in
  match phase with
  | 0 => NEO_writeColor nstep step 0
  | 1 => NEO_writeColor 0 nstep step
  | 2 => NEO_writeColor step 0 nstep
  | _ => []
  end.

(** [NEO_setPixel]: one frame, pixel [nr] lit with [hue], the others off. *)
Definition NEO_setPixel (nr hue : Z) : list Z :=
  for_upto 16
    (fun i out => out ++ (if decide (Z.of_nat i = nr)
                          then NEO_writeHue hue
                          else NEO_writeColor 0 0 0))
    [].

(** *** The spin of [main]

    The three locals of [main].  [delayms(speed)] only spends time, so the
    observable part of one loop iteration is the call
    [NEO_setPixel(number, hue)]. *)
Record wheel : Type := Wheel {
  number : Z;
  speed : Z;
  hue : Z
}.

(** [speed = 16 + (TCNT0 & 15)], the only use of the free running timer. *)
Definition start_speed (tcnt0 : Z) : Z := u8 (16 + Z.land tcnt0 15).

(** The first three statements of both loop bodies. *)
Definition next_pixel (w : wheel) : wheel :=
  let h := u8 (hue w + 1) in
  let h := if decide (h > 191) then 0 else h in
  let n := Z.land (number w + 1) 15 in
  Wheel n (speed w) h.

(** [while(--speed) { ... }].  The result is the state at loop exit and the
    (position, hue) pairs passed to [NEO_setPixel], in order. *)
Fixpoint speed_up (fuel : nat) (w : wheel) : option (wheel * list (Z * Z)) :=
  match fuel with
  | O => None
  | Datatypes.S fuel' =>
      let s := u8 (speed w - 1) in
      if decide (s = 0) then Some (Wheel (number w) s (hue w), [])
      else
        let w1 := next_pixel (Wheel (number w) s (hue w)) in
        match speed_up fuel' w1 with
        | Some (w2, shown) => Some (w2, (number w1, hue w1) :: shown)
        | None => None
        end
  end.

(** [while(++speed < 96) { ... }]. *)
Fixpoint slow_down (fuel : nat) (w : wheel) : option (wheel * list (Z * Z)) :=
  match fuel with
  | O => None
  | Datatypes.S fuel' =>
      let s := u8 (speed w + 1) in
      if decide (s < 96) then
        let w1 := next_pixel (Wheel (number w) s (hue w)) in
        match slow_down fuel' w1 with
        | Some (w2, shown) => Some (w2, (number w1, hue w1) :: shown)
        | None => None
        end
      else Some (Wheel (number w) s (hue w), [])
  end.

(** Both loops, one after the other. *)
Definition spin (fuel : nat) (w : wheel) : option (wheel * list (Z * Z)) :=
  match speed_up fuel w with
  | Some (w1, shown1) =>
      match slow_down fuel w1 with
      | Some (w2, shown2) => Some (w2, shown1 ++ shown2)
      | None => None
      end
  | None => None
  end.

(** The body of [if (~PINB & (1<<BT_PIN))] up to the end of the second loop:
    [number] and [hue] are kept from the previous spin, [speed] is read
    from the timer. *)
Definition press (fuel : nat) (tcnt0 : Z) (w : wheel) : option (wheel * list (Z * Z)) :=
  spin fuel (Wheel (number w) (start_speed tcnt0) (hue w)).

(** The frames a spin puts on the wire. *)
Definition frames (shown : list (Z * Z)) : list (list Z) :=
  map (fun p => NEO_setPixel (fst p) (snd p)) shown.

End WOF.

(** ** The ambient sketch, TinyBling.ino *)

Module Bling.

Definition gamma : list Z :=
  [   0;   0;   0;   0;   0;   0;   0;   1;   1;   1;   2;   2;   3;   3;   4;   5;
      6;   7;   8;  10;  11;  13;  14;  16;  18;  20;  22;  25;  27;  30;  33;  36;
     39;  43;  47;  50;  55;  59;  63;  68;  73;  78;  83;  89;  95; 101; 107; 114;
    120; 127; 135; 142; 150; 158; 167; 175; 184; 193; 203; 213; 223; 233; 244; 255 ].

(** [pgm_read_byte(&gamma[i])]. *)
Definition gamma_rd (i : Z) : Z :=
  if decide (0 <= i) then rd gamma (Z.to_nat i) else 0.

(** The pixel buffer: two parallel arrays of 16 bytes. *)
Record buffer : Type := Buffer {
  NEO_hue : list Z;
  NEO_bright : list Z
}.

(** Table index and table value of a ramp value [v] at brightness [b]:
    [gamma[v >> (6 - b)]] in [NEO_show]. *)
Definition show_index (v b : Z) : Z := Z.shiftr v (6 - b).
Definition show_col (v b : Z) : Z := gamma_rd (show_index v b).

(** The two ramp values of [NEO_show]: [step] and [63 - step]. *)
Definition phase_of (hue : Z) : Z := Z.shiftr hue 6.
Definition step_of (hue : Z) : Z := Z.land hue 63.
Definition nstep_of (hue : Z) : Z := 63 - step_of hue.

(** Body of the loop of [NEO_show] for one pixel. *)
Definition NEO_show_pixel (hue bright : Z) : list Z :=
  let phase := phase_of hue in
  let step := step_of hue in
  let col := show_col step bright in
  let ncol := show_col (nstep_of hue) bright in
  match phase with
  | 0 => NEO_writeColor ncol col 0
  | 1 => NEO_writeColor 0 ncol col
  | 2 => NEO_writeColor col 0 ncol
  | _ => []
  end.

Definition NEO_show (b : buffer) : list Z :=
  for_upto 16
    (fun i out => out ++ NEO_show_pixel (rd (NEO_hue b) i) (rd (NEO_bright b) i))
    [].

(** *** High level buffer operations *)

Definition NEO_set (number hue : Z) (b : buffer) : buffer :=
  let br := <[Z.to_nat number := 6]> (NEO_bright b) in
  Buffer (<[Z.to_nat number := hue]> (NEO_hue b)) br.

Definition NEO_clear (b : buffer) : buffer :=
  for_upto 16 (fun i b => Buffer (NEO_hue b) (<[i := 0]> (NEO_bright b))) b.

Definition NEO_fill (hue : Z) (b : buffer) : buffer :=
  for_upto 16 (fun i b => Buffer (<[i := hue]> (NEO_hue b)) (NEO_bright b)) b.

Definition NEO_fadeIn (b : buffer) : buffer :=
  for_upto 16
    (fun i b =>
       if decide (rd (NEO_bright b) i < 6)
       then Buffer (NEO_hue b) (<[i := u8 (rd (NEO_bright b) i + 1)]> (NEO_bright b))
       else b)
    b.

Definition NEO_fadeOut (b : buffer) : buffer :=
  for_upto 16
    (fun i b =>
       if decide (rd (NEO_bright b) i <> 0)
       then Buffer (NEO_hue b) (<[i := u8 (rd (NEO_bright b) i - 1)]> (NEO_bright b))
       else b)
    b.

Definition NEO_cw (b : buffer) : buffer :=
  let btemp := rd (NEO_bright b) 15 in
  let htemp := rd (NEO_hue b) 15 in
  let b1 :=
    for_downto 15
      (fun i b =>
         let br := <[i := rd (NEO_bright b) (i - 1)]> (NEO_bright b) in
         Buffer (<[i := rd (NEO_hue b) (i - 1)]> (NEO_hue b)) br)
      b in
  let br := <[0%nat := btemp]> (NEO_bright b1) in
  Buffer (<[0%nat := htemp]> (NEO_hue b1)) br.

Definition NEO_ccw (b : buffer) : buffer :=
  let btemp := rd (NEO_bright b) 0 in
  let htemp := rd (NEO_hue b) 0 in
  let b1 :=
    for_upto 15
      (fun i b =>
         let br := <[i := rd (NEO_bright b) (i + 1)]> (NEO_bright b) in
         Buffer (<[i := rd (NEO_hue b) (i + 1)]> (NEO_hue b)) br)
      b in
  let br := <[15%nat := btemp]> (NEO_bright b1) in
  Buffer (<[15%nat := htemp]> (NEO_hue b1)) br.

(** *** Pseudo random number generator *)

Definition seed : Z := 0xACE1.

(** [rn = (rn >> 0x01) ^ (-(rn & 0x01) & 0xB400)] on [uint16_t]. *)
Definition lfsr (rn : Z) : Z :=
  u16 (Z.lxor (Z.shiftr rn 1) (Z.land (u16 (- Z.land rn 1)) 0xB400)).

(** [prng(maxvalue)]: the returned value and the new [rn].  The C [%] is
    undefined for [maxvalue = 0]; the sketch only passes 4, 8, 16, 192. *)
Definition prng (maxvalue rn : Z) : Z * Z :=
  let rn' := lfsr rn in
  (rn' mod maxvalue, rn').

(** The first [n] values of [prng(maxvalue)] from generator state [rn]. *)
Fixpoint prng_seq (maxvalue : Z) (n : nat) (rn : Z) : list Z :=
  match n with
  | O => []
  | Datatypes.S k => let (v, rn') := prng maxvalue rn in v :: prng_seq maxvalue k rn'
  end.

(** *** The animation loop of [main] *)

Record machine : Type := Machine {
  buf : buffer;       (* NEO_hue, NEO_bright *)
  rn : Z;             (* generator state *)
  state : Z;
  counter : Z;
  hue1 : Z;
  hue2 : Z;
  ptr1 : Z;
  ptr2 : Z
}.

(** C leaves the order in which the two arguments of
    [NEO_set(prng(16), prng(192))] are evaluated to the compiler. *)
Inductive arg_order : Type := LeftFirst | RightFirst.

(** The two calls of [prng] in the arguments of [NEO_set(prng(16), prng(192))]. *)
Definition set_random (o : arg_order) (br : buffer * Z) : buffer * Z :=
  let (b, r) := br in
  match o with
  | LeftFirst =>
      let (n, r1) := prng 16 r in
      let (h, r2) := prng 192 r1 in
      (NEO_set (u8 n) (u8 h) b, r2)
  | RightFirst =>
      let (h, r1) := prng 192 r in
      let (n, r2) := prng 16 r1 in
      (NEO_set (u8 n) (u8 h) b, r2)
  end.

(** [if (h > 191) h -= 192]. *)
Definition wrap192 (h : Z) : Z := if decide (h > 191) then u8 (h - 192) else h.

(** The [switch(state)] of the main loop: the new machine and the bytes sent
    by [NEO_show] on this tick (state 0 sends nothing). *)
Definition animate (o : arg_order) (m : machine) : machine * list Z :=
  match state m with
  | 0 =>
      (Machine (buf m) (rn m) (state m) 1 0 96 0 8, [])
  | 1 =>
      let b := NEO_fadeOut (buf m) in
      let h1 := wrap192 (u8 (hue1 m + 4)) in
      let h2 := wrap192 (u8 (hue2 m + 4)) in
      let p1 := Z.land (ptr1 m + 1) 15 in
      let p2 := Z.land (ptr2 m + 1) 15 in
      let b := NEO_set p2 h2 (NEO_set p1 h1 b) in
      (Machine b (rn m) (state m) (counter m) h1 h2 p1 p2, NEO_show b)
  | 2 =>
      let b := NEO_fadeOut (buf m) in
      let (i, r) := prng 4 (rn m) in
      let (b, r) := for_downto (Z.to_nat (u8 i)) (fun _ => set_random o) (b, r) in
      (Machine b r (state m) (counter m) (hue1 m) (hue2 m) (ptr1 m) (ptr2 m),
       NEO_show b)
  | 3 =>
      let (b, r) :=
        for_upto 16
          (fun i (br : buffer * Z) =>
             let (h, r') := prng 192 (snd br) in
             (NEO_set (Z.of_nat i) (u8 h) (fst br), r'))
          (buf m, rn m) in
      (Machine b r (state m) 1 (hue1 m) (hue2 m) (ptr1 m) (ptr2 m), NEO_show b)
  | 4 =>
      let (b, r) :=
        for_upto 16
          (fun i (br : buffer * Z) =>
             let (v, r') := prng 8 (snd br) in
             let h := wrap192 (u8 (rd (NEO_hue (fst br)) i + v)) in
             (Buffer (<[i := h]> (NEO_hue (fst br))) (NEO_bright (fst br)), r'))
          (buf m, rn m) in
      (Machine b r (state m) (counter m) (hue1 m) (hue2 m) (ptr1 m) (ptr2 m),
       NEO_show b)
  | 5 =>
      let (b, h1) :=
        for_upto 16
          (fun i (bh : buffer * Z) =>
             (NEO_set (Z.of_nat i) (snd bh) (fst bh), u8 (snd bh + 12)))
          (buf m, 0) in
      (Machine b (rn m) (state m) 1 h1 (hue2 m) (ptr1 m) (ptr2 m), NEO_show b)
  | 6 =>
      let b := NEO_cw (buf m) in
      (Machine b (rn m) (state m) (counter m) (hue1 m) (hue2 m) (ptr1 m) (ptr2 m),
       NEO_show b)
  | 7 =>
      let h1 := wrap192 (u8 (hue1 m + 3)) in
      let b := NEO_fill h1 (buf m) in
      (Machine b (rn m) (state m) (counter m) h1 (hue2 m) (ptr1 m) (ptr2 m),
       NEO_show b)
  | _ => (m, [])
  end.

(** [if(!(--counter)) { counter = 76; if(++state > 7) state = 0; }] *)
Definition advance (m : machine) : machine :=
  let c := u8 (counter m - 1) in
  if decide (c = 0) then
    let s := u8 (state m + 1) in
    let s := if decide (s > 7) then 0 else s in
    Machine (buf m) (rn m) s 76 (hue1 m) (hue2 m) (ptr1 m) (ptr2 m)
  else
    Machine (buf m) (rn m) (state m) c (hue1 m) (hue2 m) (ptr1 m) (ptr2 m).

(** One pass of [while(1)]: animate, count down, then sleep until the
    watchdog fires. *)
Definition tick (o : arg_order) (m : machine) : machine :=
  advance (fst (animate o m)).

Definition tick_frame (o : arg_order) (m : machine) : list Z :=
  snd (animate o m).

Definition ticks (o : arg_order) (n : nat) (m : machine) : machine :=
  Nat.iter n (tick o) m.

(** The machine when [main] enters its loop: the arrays are zero
    initialised globals, [rn] has its initialiser, [state] is 0, and the
    other five locals are not initialised. *)
Definition power_on (c h1 h2 p1 p2 : Z) : machine :=
  Machine (Buffer (replicate 16 0) (replicate 16 0)) seed 0 c h1 h2 p1 p2.

(** Length of one full pass through the eight states. *)
Definition cycle_length : nat := 1 + 76 + 76 + 1 + 76 + 1 + 76 + 76.

End Bling.

(** The update of the generator in the words of the specification: a Galois
    shift register that shifts right and folds the feedback constant
    [0xB400] in when the bit shifted out is set. *)
Definition galois_step (rn : Z) : Z :=
  if Z.odd rn then Z.lxor (Z.shiftr rn 1) 0xB400 else Z.shiftr rn 1.

(** What one call of [NEO_fadeIn] / [NEO_fadeOut] does to one brightness. *)
Definition fade_in_step (x : Z) : Z := if decide (x < 6) then u8 (x + 1) else x.
Definition fade_out_step (x : Z) : Z := if decide (x <> 0) then u8 (x - 1) else x.

(** Pixel [i] of a buffer as [NEO_show] encodes it. *)
Definition pixel_bytes (b : Bling.buffer) (i : nat) : list Z :=
  Bling.NEO_show_pixel (rd (Bling.NEO_hue b) i) (rd (Bling.NEO_bright b) i).

(** The (position, hue) pair that follows [p] on the wheel, and the [count]
    pairs that follow it. *)
Definition next_pair (p : Z * Z) : Z * Z :=
  (WOF.number (WOF.next_pixel (WOF.Wheel (fst p) 0 (snd p))),
   WOF.hue (WOF.next_pixel (WOF.Wheel (fst p) 0 (snd p)))).

Fixpoint track (count : nat) (p : Z * Z) : list (Z * Z) :=
  match count with
  | O => []
  | Datatypes.S c => next_pair p :: track c (next_pair p)
  end.

(** *** The locals of the animation loop on their own

    [state], [counter], [hue1], [hue2], [ptr1] and [ptr2] are never computed
    from the pixel arrays or from the generator, so their evolution can be
    written down without either.  [locals_step] is [Bling.tick] restricted to
    these six variables; [locals_simulation] below proves the two agree. *)
Record locals : Type := Locals {
  l_state : Z;
  l_counter : Z;
  l_hue1 : Z;
  l_hue2 : Z;
  l_ptr1 : Z;
  l_ptr2 : Z
}.

Definition locals_of (m : Bling.machine) : locals :=
  Locals (Bling.state m) (Bling.counter m) (Bling.hue1 m) (Bling.hue2 m)
         (Bling.ptr1 m) (Bling.ptr2 m).

Definition locals_animate (l : locals) : locals :=
  match l_state l with
  | 0 => Locals (l_state l) 1 0 96 0 8
  | 1 => Locals (l_state l) (l_counter l)
           (Bling.wrap192 (u8 (l_hue1 l + 4))) (Bling.wrap192 (u8 (l_hue2 l + 4)))
           (Z.land (l_ptr1 l + 1) 15) (Z.land (l_ptr2 l + 1) 15)
  | 3 => Locals (l_state l) 1 (l_hue1 l) (l_hue2 l) (l_ptr1 l) (l_ptr2 l)
  | 5 => Locals (l_state l) 1 (Nat.iter 16 (fun h => u8 (h + 12)) 0)
           (l_hue2 l) (l_ptr1 l) (l_ptr2 l)
  | 7 => Locals (l_state l) (l_counter l) (Bling.wrap192 (u8 (l_hue1 l + 3)))
           (l_hue2 l) (l_ptr1 l) (l_ptr2 l)
  | _ => l
  end.

Definition locals_advance (l : locals) : locals :=
  let c := u8 (l_counter l - 1) in
  if decide (c = 0) then
    let s := u8 (l_state l + 1) in
    let s := if decide (s > 7) then 0 else s in
    Locals s 76 (l_hue1 l) (l_hue2 l) (l_ptr1 l) (l_ptr2 l)
  else
    Locals (l_state l) c (l_hue1 l) (l_hue2 l) (l_ptr1 l) (l_ptr2 l).

Definition locals_step (l : locals) : locals := locals_advance (locals_animate l).

(** No visit to state 0 during steps [1 .. n] from [l]. *)
Fixpoint away_from_zero (n : nat) (l : locals) : bool :=
  match n with
  | O => true
  | Datatypes.S k =>
      negb (l_state (locals_step l) =? 0) && away_from_zero k (locals_step l)
  end.

(** A hue on the wheel. *)
Definition on_wheel (h : Z) : Prop := 0 <= h < 192.

(** What holds of the ambient machine after every tick. *)
Record tidy (m : Bling.machine) : Prop := Tidy {
  tidy_hues : Forall on_wheel (Bling.NEO_hue (Bling.buf m));
  tidy_state : 0 <= Bling.state m <= 7;
  tidy_hue1 : 0 <= Bling.hue1 m <= 192;
  tidy_hue1_top : Bling.hue1 m = 192 -> Bling.state m = 6 \/ Bling.state m = 7;
  tidy_hue2 : on_wheel (Bling.hue2 m)
}.

(** ** Auxiliary definitions for the further properties *)

(** A bounded universal check that computes: [P] at [z, z+1, .., z+n-1]. *)
Fixpoint all_from (n : nat) (z : Z) (P : Z -> bool) : bool :=
  match n with
  | O => true
  | Datatypes.S k => P z && all_from k (z + 1) P
  end.

(** Sum of the channel bytes of a pixel. *)
Definition channel_sum (bytes : list Z) : Z := foldr Z.add 0 bytes.

(** The hue after [hue] going round the wheel. *)
Definition hue_succ (hue : Z) : Z := (hue + 1) mod 192.

(** The two comets of state 1 sit opposite each other, half a wheel apart. *)
Record opposite (l : locals) : Prop := Opposite {
  opp_state : 0 <= l_state l <= 7;
  opp_ptr1 : 0 <= l_ptr1 l < 16;
  opp_ptr2 : l_ptr2 l = (l_ptr1 l + 8) mod 16;
  opp_hues : l_state l = 1 ->
             0 <= l_hue1 l < 192 /\ l_hue2 l = (l_hue1 l + 96) mod 192
}.

(** A buffer whose arrays have their 16 cells and whose brightness values are
    levels [NEO_show] can shift by. *)
Record in_bounds (b : Bling.buffer) : Prop := InBounds {
  ib_hue_len : length (Bling.NEO_hue b) = 16%nat;
  ib_bright_len : length (Bling.NEO_bright b) = 16%nat;
  ib_levels : Forall (fun x => 0 <= x <= 6) (Bling.NEO_bright b)
}.

(** The hues the rainbow fill of state 5 writes: 0, 12, .., 180. *)
Definition rainbow : list Z := map (fun i => 12 * Z.of_nat i) (seq 0 16).

(** Does the generator come back to the seed within [n] further calls? *)
Fixpoint returns_within (n : nat) (x : Z) : bool :=
  match n with
  | O => false
  | Datatypes.S k =>
      if Bling.lfsr x =? Bling.seed then true else returns_within k (Bling.lfsr x)
  end.

(** The loop of [NEO_sendByte] bit by bit.  [sbrs byte, 7] tests the top bit
    of the register, which decides whether the line goes low early (a 0) or
    late (a 1); [add byte, byte] then moves the next bit up. *)
Definition NEO_sendByte_bits (byte : Z) : list bool :=
  snd (for_downto 8
         (fun _ (st : Z * list bool) =>
            (u8 (fst st + fst st), snd st ++ [Z.testbit (fst st) 7]))
         (byte, [])).

(** The number a receiver reads from bits that arrive most significant
    first. *)
Definition bits_value (bits : list bool) : Z :=
  foldl (fun acc (b : bool) => 2 * acc + Z.b2z b) 0 bits.

(** *** Time spent in a spin

    [delayms(time)] is [while (time--) _delay_ms(1)]: the result is the number
    of calls of [_delay_ms(1)], that is the milliseconds waited. *)
Fixpoint delayms (fuel : nat) (time : Z) : option nat :=
  match fuel with
  | O => None
  | Datatypes.S fuel' =>
      if decide (time = 0) then Some 0%nat
      else option_map Datatypes.S (delayms fuel' (u8 (time - 1)))
  end.

(** The two loops of the spin as they act on [speed] alone: the result is the
    value of [speed] at loop exit and the arguments of [delayms], in order. *)
Fixpoint speed_up_delays (fuel : nat) (speed : Z) : option (Z * list Z) :=
  match fuel with
  | O => None
  | Datatypes.S fuel' =>
      let s := u8 (speed - 1) in
      if decide (s = 0) then Some (s, [])
      else match speed_up_delays fuel' s with
           | Some (s', ds) => Some (s', s :: ds)
           | None => None
           end
  end.

Fixpoint slow_down_delays (fuel : nat) (speed : Z) : option (Z * list Z) :=
  match fuel with
  | O => None
  | Datatypes.S fuel' =>
      let s := u8 (speed + 1) in
      if decide (s < 96) then
        match slow_down_delays fuel' s with
        | Some (s', ds) => Some (s', s :: ds)
        | None => None
        end
      else Some (s, [])
  end.

Definition spin_delays (fuel : nat) (speed : Z) : option (list Z) :=
  match speed_up_delays fuel speed with
  | Some (s1, ds1) =>
      match slow_down_delays fuel s1 with
      | Some (_, ds2) => Some (ds1 ++ ds2)
      | None => None
      end
  | None => None
  end.

(** Milliseconds waited by the calls [delayms(d)] for [d] in [ds]. *)
Fixpoint total_ms (fuel : nat) (ds : list Z) : option nat :=
  match ds with
  | [] => Some 0%nat
  | d :: rest =>
      match delayms fuel d, total_ms fuel rest with
      | Some a, Some b => Some (a + b)%nat
      | _, _ => None
      end
  end.

(** The pixel buffer through states 5 and 6 of a run. *)
Definition rainbow_buffer : Bling.buffer := Bling.Buffer rainbow (replicate 16 6).

(** * Properties *)

(** ** Arithmetic helpers *)

Lemma u8_small (z : Z) : 0 <= z < 256 -> u8 z = z.
Proof. intros H. unfold u8. apply Z.mod_small. exact H. Qed.

Lemma u8_range (z : Z) : 0 <= u8 z < 256.
Proof. unfold u8. apply Z.mod_pos_bound. lia. Qed.

Lemma u16_small (z : Z) : 0 <= z < 65536 -> u16 z = z.
Proof. intros H. unfold u16. apply Z.mod_small. exact H. Qed.

Lemma land63 (h : Z) : Z.land h 63 = h mod 64.
Proof. change 63 with (Z.ones 6). apply Z.land_ones. lia. Qed.

Lemma land15 (h : Z) : Z.land h 15 = h mod 16.
Proof. change 15 with (Z.ones 4). apply Z.land_ones. lia. Qed.

Lemma shiftr6 (h : Z) : Z.shiftr h 6 = h / 64.
Proof. rewrite Z.shiftr_div_pow2 by lia. reflexivity. Qed.

(** The phase of a byte is 0, 1, 2 or 3; it is 3 exactly from 192 on. *)
Lemma phase_cases (h : Z) :
  0 <= h < 256 ->
  (h / 64 = 0 /\ 0 <= h < 64) \/ (h / 64 = 1 /\ 64 <= h < 128) \/
  (h / 64 = 2 /\ 128 <= h < 192) \/ (h / 64 = 3 /\ 192 <= h < 256).
Proof.
  intros H. pose proof (Z.div_mod h 64 ltac:(lia)) as E.
  pose proof (Z.mod_pos_bound h 64 ltac:(lia)) as B.
  assert (h / 64 = 0 \/ h / 64 = 1 \/ h / 64 = 2 \/ h / 64 = 3) as C by lia.
  lia.
Qed.

(** ** The colour wheel *)

Lemma wof_step_value (hue : Z) :
  0 <= hue < 256 -> WOF.step_of hue = 4 * (hue mod 64).
Proof.
  intros H. unfold WOF.step_of. rewrite land63, Z.shiftl_mul_pow2 by lia.
  pose proof (Z.mod_pos_bound hue 64 ltac:(lia)).
  rewrite u8_small; change (2 ^ 2) with 4; lia.
Qed.

Lemma wof_nstep_value (hue : Z) :
  0 <= hue < 256 -> WOF.nstep_of hue = 252 - 4 * (hue mod 64).
Proof.
  intros H. unfold WOF.nstep_of. rewrite wof_step_value by exact H.
  pose proof (Z.mod_pos_bound hue 64 ltac:(lia)).
  change (Z.shiftl 63 2) with 252. rewrite u8_small; lia.
Qed.

Lemma boundary_hues (hue : Z) :
  0 <= hue < 192 -> hue mod 64 = 0 -> hue = 0 \/ hue = 64 \/ hue = 128.
Proof.
  intros H H0. pose proof (Z.div_mod hue 64 ltac:(lia)) as E.
  rewrite H0 in E. lia.
Qed.

(** C1, as the code has it.  For every hue of the wheel the two ramp values
    of [NEO_writeHue] add up to 252 and those of [NEO_show] (taken before the
    brightness shift) add up to 63.  At a phase boundary [NEO_writeHue] sends
    a pure primary colour: two of the three channels are zero and the third
    is 252; [NEO_show] sends at least two zero channels there, and exactly
    two from brightness 3 on. *)
Theorem hue_phase_decomposition (hue : Z) :
  0 <= hue < 192 ->
  WOF.step_of hue + WOF.nstep_of hue = 252 /\
  Bling.step_of hue + Bling.nstep_of hue = 63 /\
  (hue mod 64 = 0 ->
   zero_channels (WOF.NEO_writeHue hue) = 2%nat /\
   WOF.step_of hue = 0 /\ WOF.nstep_of hue = 252 /\
   forall b, 0 <= b <= 6 ->
     (2 <= zero_channels (Bling.NEO_show_pixel hue b))%nat /\
     (3 <= b -> zero_channels (Bling.NEO_show_pixel hue b) = 2%nat)).
Proof.
  intros H. split; [|split].
  - rewrite wof_step_value, wof_nstep_value by lia. lia.
  - unfold Bling.nstep_of. lia.
  - intros Hb. destruct (boundary_hues hue H Hb) as [-> | [-> | ->]];
      (split; [reflexivity|split; [reflexivity|split; [reflexivity|]]]);
      intros b Hrange;
      assert (b = 0 \/ b = 1 \/ b = 2 \/ b = 3 \/ b = 4 \/ b = 5 \/ b = 6)
        as [-> | [-> | [-> | [-> | [-> | [-> | ->]]]]]] by lia;
      (split; [vm_compute; lia | intros Hge; first [lia | reflexivity]]).
Qed.

Lemma hue_phase_decomposition_witness :
  WOF.step_of 64 + WOF.nstep_of 64 = 252 /\
  zero_channels (WOF.NEO_writeHue 64) = 2%nat.
Proof.
  destruct (hue_phase_decomposition 64 ltac:(lia)) as (Hsum & _ & Hedge).
  split; [exact Hsum|]. apply Hedge. reflexivity.
Defined.

(** C1 as stated fails at hue 0: the pixel sent is pure red, with two zero
    channels, and the ramp values of [NEO_show] add up to 63, not 252. *)
Lemma boundary_hue_is_primary :
  0 mod 64 = 0 /\
  WOF.NEO_writeHue 0 = [0; 252; 0] /\
  zero_channels (WOF.NEO_writeHue 0) <> 1%nat /\
  Bling.NEO_show_pixel 0 6 = [0; 255; 0] /\
  zero_channels (Bling.NEO_show_pixel 0 6) <> 1%nat /\
  Bling.step_of 0 + Bling.nstep_of 0 <> 252 /\
  ~ (forall hue, 0 <= hue < 192 -> hue mod 64 = 0 ->
       zero_channels (WOF.NEO_writeHue hue) = 1%nat).
Proof.
  repeat split; try reflexivity; try (vm_compute; congruence).
  intros Hall. specialize (Hall 0 ltac:(lia) eq_refl). vm_compute in Hall. lia.
Qed.

(** ** Brightness scaling *)

(** C5.  With brightness 0 every ramp value lands on table entry 0, whose
    value is 0, so the pixel is off; with brightness 6 the table index is the
    ramp value itself.  In between the index stays inside the table. *)
Theorem gamma_scaling_extremes (step b : Z) :
  0 <= step <= 63 -> 0 <= b <= 6 ->
  0 <= Bling.show_index step b <= 63 /\
  Bling.show_index step 0 = 0 /\
  Bling.show_col step 0 = 0 /\
  Bling.show_index step 6 = step /\
  (forall hue, 0 <= hue < 192 -> Bling.NEO_show_pixel hue 0 = [0; 0; 0]).
Proof.
  intros Hs Hb.
  assert (Hidx0 : forall v, 0 <= v <= 63 -> Bling.show_index v 0 = 0).
  { intros v Hv. unfold Bling.show_index. rewrite Z.shiftr_div_pow2 by lia.
    apply Z.div_small. change (2 ^ (6 - 0)) with 64. lia. }
  split; [split|split; [|split; [|split]]].
  - unfold Bling.show_index. apply Z.shiftr_nonneg. lia.
  - unfold Bling.show_index. rewrite Z.shiftr_div_pow2 by lia.
    assert (0 < 2 ^ (6 - b)) by (apply Z.pow_pos_nonneg; lia).
    apply Z.le_trans with (step / 1); [|rewrite Z.div_1_r; lia].
    apply Z.div_le_compat_l; lia.
  - apply Hidx0, Hs.
  - unfold Bling.show_col. rewrite Hidx0 by exact Hs. reflexivity.
  - unfold Bling.show_index. change (6 - 6) with 0. apply Z.shiftr_0_r.
  - intros hue Hh. unfold Bling.NEO_show_pixel, Bling.show_col.
    pose proof (Z.mod_pos_bound hue 64 ltac:(lia)) as Hm.
    rewrite !Hidx0
      by (unfold Bling.nstep_of, Bling.step_of; rewrite land63; lia).
    unfold Bling.phase_of. rewrite shiftr6.
    destruct (phase_cases hue ltac:(lia)) as [[-> _]|[[-> _]|[[-> _]|[_ ?]]]];
      [reflexivity..|lia].
Qed.

Lemma gamma_scaling_extremes_witness :
  Bling.show_col 40 0 = 0 /\ Bling.show_index 40 6 = 40.
Proof.
  destruct (gamma_scaling_extremes 40 3 ltac:(lia) ltac:(lia))
    as (_ & _ & Hoff & Hfull & _).
  split; [exact Hoff | exact Hfull].
Defined.

(** ** The random generator *)

Lemma lxor_below (a b n : Z) :
  0 <= a < 2 ^ n -> 0 <= b < 2 ^ n -> 0 <= Z.lxor a b < 2 ^ n.
Proof.
  intros Ha Hb.
  assert (Hx : 0 <= Z.lxor a b) by (apply Z.lxor_nonneg; lia).
  split; [exact Hx|].
  destruct (decide (Z.lxor a b = 0)) as [E|Hne]; [rewrite E; lia|].
  destruct (Z_lt_le_dec 0 n) as [Hn|Hn].
  - apply Z.log2_lt_pow2; [lia|].
    eapply Z.le_lt_trans; [apply Z.log2_lxor; lia|].
    apply Z.max_lub_lt.
    + destruct (decide (a = 0)) as [->|]; [exact Hn|apply Z.log2_lt_pow2; lia].
    + destruct (decide (b = 0)) as [->|]; [exact Hn|apply Z.log2_lt_pow2; lia].
  - exfalso. apply Hne.
    assert (2 ^ n <= 1).
    { destruct (decide (n = 0)) as [->|]; [simpl; lia|].
      rewrite Z.pow_neg_r by lia. lia. }
    replace a with 0 by lia. replace b with 0 by lia. reflexivity.
Qed.

Lemma halve_range (rn : Z) : 0 <= rn < 65536 -> 0 <= Z.shiftr rn 1 < 32768.
Proof.
  intros H. rewrite Z.shiftr_div_pow2 by lia. change (2 ^ 1) with 2.
  pose proof (Z.div_mod rn 2 ltac:(lia)). pose proof (Z.mod_pos_bound rn 2 ltac:(lia)).
  lia.
Qed.

(** The C expression is the Galois step of the specification. *)
Lemma lfsr_galois (rn : Z) :
  0 <= rn < 65536 -> Bling.lfsr rn = galois_step rn.
Proof.
  intros H. unfold Bling.lfsr, galois_step.
  pose proof (halve_range rn H) as Hh.
  change 1 with (Z.ones 1) at 2. rewrite Z.land_ones by lia.
  change (2 ^ 1) with 2. rewrite Zmod_odd.
  destruct (Z.odd rn).
  - change (Z.land (u16 (- 1)) 46080) with 46080.
    apply u16_small. apply (lxor_below _ _ 16); simpl; lia.
  - change (Z.land (u16 (- 0)) 46080) with 0.
    rewrite Z.lxor_0_r. apply u16_small. lia.
Qed.

Lemma lfsr_range (rn : Z) : 0 <= Bling.lfsr rn < 65536.
Proof. unfold Bling.lfsr, u16. apply Z.mod_pos_bound. lia. Qed.

Lemma lfsr_keeps_nonzero (rn : Z) :
  0 < rn < 65536 -> 0 < Bling.lfsr rn < 65536.
Proof.
  intros H. pose proof (lfsr_range rn) as R.
  enough (Bling.lfsr rn <> 0) by lia.
  rewrite lfsr_galois by lia. unfold galois_step.
  pose proof (halve_range rn ltac:(lia)) as Hh.
  destruct (Z.odd rn) eqn:Hodd.
  - intros E. apply Z.lxor_eq in E. lia.
  - rewrite Z.shiftr_div_pow2 by lia. change (2 ^ 1) with 2.
    pose proof (Zmod_odd rn) as M. rewrite Hodd in M.
    pose proof (Z.div_mod rn 2 ltac:(lia)). lia.
Qed.

Lemma iter_lfsr_nonzero (n : nat) (rn : Z) :
  0 < rn < 65536 -> 0 < Nat.iter n Bling.lfsr rn < 65536.
Proof.
  intros H. induction n as [|n IH]; simpl; [exact H|].
  apply lfsr_keeps_nonzero, IH.
Qed.

Lemma prng_seq_bounded (maxvalue : Z) (n : nat) :
  0 < maxvalue ->
  forall rn, Forall (fun v => 0 <= v < maxvalue) (Bling.prng_seq maxvalue n rn).
Proof.
  intros Hm. induction n as [|n IH]; intros rn; simpl; constructor.
  - apply Z.mod_pos_bound, Hm.
  - apply IH.
Qed.

Lemma prng_seq_prefix (maxvalue : Z) (n k : nat) :
  forall rn,
    take n (Bling.prng_seq maxvalue (n + k) rn) = Bling.prng_seq maxvalue n rn.
Proof.
  induction n as [|n IH]; intros rn; simpl.
  - apply take_0.
  - f_equal. apply IH.
Qed.

(** C3.  One call of [prng] replaces the state by its Galois step and returns
    the new state modulo the bound, a value below the bound.  The outputs of
    a run are a function of the start state and the bound: a longer run
    repeats the shorter one, and the run from the seed with bound 16 starts
    with the values listed. *)
Theorem prng_advances_and_bounds (maxvalue rn : Z) (n k : nat) :
  0 < maxvalue < 65536 -> 0 <= rn < 65536 ->
  snd (Bling.prng maxvalue rn) = galois_step rn /\
  fst (Bling.prng maxvalue rn) = snd (Bling.prng maxvalue rn) mod maxvalue /\
  0 <= fst (Bling.prng maxvalue rn) < maxvalue /\
  0 <= snd (Bling.prng maxvalue rn) < 65536 /\
  Forall (fun v => 0 <= v < maxvalue) (Bling.prng_seq maxvalue n rn) /\
  take n (Bling.prng_seq maxvalue (n + k) rn) = Bling.prng_seq maxvalue n rn /\
  Bling.prng_seq 16 8 Bling.seed = [0; 8; 12; 14; 7; 3; 9; 4].
Proof.
  intros Hm Hr. simpl.
  split; [apply lfsr_galois, Hr|].
  split; [reflexivity|].
  split; [apply Z.mod_pos_bound; lia|].
  split; [apply lfsr_range|].
  split; [apply prng_seq_bounded; lia|].
  split; [apply prng_seq_prefix|].
  reflexivity.
Qed.

Lemma prng_advances_and_bounds_witness :
  snd (Bling.prng 192 Bling.seed) = galois_step Bling.seed /\
  0 <= fst (Bling.prng 192 Bling.seed) < 192.
Proof.
  destruct (prng_advances_and_bounds 192 Bling.seed 4 4
              ltac:(lia) ltac:(unfold Bling.seed; lia))
    as (Hstep & _ & Hbound & _).
  split; [exact Hstep | exact Hbound].
Defined.

(** C9.  A nonzero 16 bit state has a nonzero successor, so the state reached
    from the seed after any number of calls is nonzero; zero itself is a
    fixed point of the update. *)
Theorem lfsr_never_zero (rn : Z) (n : nat) :
  0 < rn < 65536 ->
  Bling.lfsr rn <> 0 /\
  0 < Bling.lfsr rn < 65536 /\
  Nat.iter n Bling.lfsr rn <> 0 /\
  Nat.iter n Bling.lfsr Bling.seed <> 0 /\
  Bling.lfsr 0 = 0.
Proof.
  intros H.
  pose proof (lfsr_keeps_nonzero rn H).
  pose proof (iter_lfsr_nonzero n rn H).
  pose proof (iter_lfsr_nonzero n Bling.seed ltac:(unfold Bling.seed; lia)).
  repeat split; try lia.
Qed.

Lemma lfsr_never_zero_witness :
  Bling.lfsr 1 <> 0 /\ Nat.iter 5 Bling.lfsr Bling.seed <> 0.
Proof.
  destruct (lfsr_never_zero 1 5 ltac:(lia)) as (Hone & _ & _ & Hseed & _).
  split; [exact Hone | exact Hseed].
Defined.

(** ** Loops over the pixel arrays *)

Lemma insert_rd_id (l : list Z) (i : nat) : <[i := rd l i]> l = l.
Proof.
  unfold rd. destruct (l !! i) as [x|] eqn:E; simpl.
  - apply list_insert_id, E.
  - apply list_insert_ge. apply lookup_ge_None, E.
Qed.

Lemma rd_map (g : Z -> Z) (l : list Z) (i : nat) :
  (i < length l)%nat -> rd (map g l) i = g (rd l i).
Proof.
  intros H. unfold rd. change (map g l) with (g <$> l).
  rewrite list_lookup_fmap.
  destruct (lookup_lt_is_Some_2 l i H) as [x ->]. reflexivity.
Qed.

Lemma foldl_ext {A B : Type} (f g : A -> B -> A) (xs : list B) :
  (forall a x, f a x = g a x) -> forall a, foldl f a xs = foldl g a xs.
Proof.
  intros E. induction xs as [|x xs IH]; intros a; simpl; [reflexivity|].
  rewrite E. apply IH.
Qed.

(** A loop that rewrites the brightness array only. *)
Lemma foldl_bright (f : nat -> list Z -> list Z) (xs : list nat) :
  forall b,
    foldl (fun b i => Bling.Buffer (Bling.NEO_hue b) (f i (Bling.NEO_bright b))) b xs
    = Bling.Buffer (Bling.NEO_hue b) (foldl (fun l i => f i l) (Bling.NEO_bright b) xs).
Proof.
  induction xs as [|x xs IH]; intros [hs bs]; simpl; [reflexivity|].
  rewrite IH. reflexivity.
Qed.

(** Rewriting every cell in index order is [map]. *)
Lemma foldl_pointwise (g : Z -> Z) (rest : list Z) :
  forall done,
    foldl (fun l i => <[i := g (rd l i)]> l) (done ++ rest)
          (seq (length done) (length rest))
    = done ++ map g rest.
Proof.
  induction rest as [|x rest IH]; intros done; simpl; [reflexivity|].
  assert (Hrd : rd (done ++ x :: rest) (length done) = x).
  { unfold rd. rewrite list_lookup_middle by reflexivity. reflexivity. }
  rewrite Hrd.
  replace (<[length done := g x]> (done ++ x :: rest))
    with ((done ++ [g x]) ++ rest).
  2:{ rewrite insert_app_r_alt by lia. rewrite Nat.sub_diag. simpl.
      rewrite <- app_assoc. reflexivity. }
  replace (Datatypes.S (length done)) with (length (done ++ [g x]))
    by (rewrite length_app; simpl; lia).
  rewrite IH. rewrite <- app_assoc. reflexivity.
Qed.

Lemma for_upto_pointwise (g : Z -> Z) (l : list Z) :
  for_upto (length l) (fun i l => <[i := g (rd l i)]> l) l = map g l.
Proof. apply (foldl_pointwise g l []). Qed.

(** A loop that only sends bytes. *)
Lemma foldl_emit (f : nat -> list Z) (xs : list nat) :
  forall out, foldl (fun out i => out ++ f i) out xs = out ++ concat (map f xs).
Proof.
  induction xs as [|x xs IH]; intros out; simpl.
  - symmetry. apply app_nil_r.
  - rewrite IH, <- app_assoc. reflexivity.
Qed.

Lemma NEO_show_pixels (b : Bling.buffer) :
  Bling.NEO_show b = concat (map (pixel_bytes b) (seq 0 16)).
Proof. unfold Bling.NEO_show, for_upto. apply (foldl_emit (pixel_bytes b)). Qed.

Lemma NEO_fadeIn_map (b : Bling.buffer) :
  length (Bling.NEO_bright b) = 16%nat ->
  Bling.NEO_fadeIn b = Bling.Buffer (Bling.NEO_hue b) (map fade_in_step (Bling.NEO_bright b)).
Proof.
  intros Hlen. unfold Bling.NEO_fadeIn, for_upto.
  rewrite (foldl_ext _
    (fun b i => Bling.Buffer (Bling.NEO_hue b)
                  (<[i := fade_in_step (rd (Bling.NEO_bright b) i)]> (Bling.NEO_bright b)))).
  2:{ intros [hs bs] i. unfold fade_in_step. simpl.
      destruct (decide (rd bs i < 6)); [reflexivity|].
      rewrite insert_rd_id. reflexivity. }
  rewrite (foldl_bright (fun i l => <[i := fade_in_step (rd l i)]> l)).
  f_equal. rewrite <- Hlen. apply for_upto_pointwise.
Qed.

Lemma NEO_fadeOut_map (b : Bling.buffer) :
  length (Bling.NEO_bright b) = 16%nat ->
  Bling.NEO_fadeOut b = Bling.Buffer (Bling.NEO_hue b) (map fade_out_step (Bling.NEO_bright b)).
Proof.
  intros Hlen. unfold Bling.NEO_fadeOut, for_upto.
  rewrite (foldl_ext _
    (fun b i => Bling.Buffer (Bling.NEO_hue b)
                  (<[i := fade_out_step (rd (Bling.NEO_bright b) i)]> (Bling.NEO_bright b)))).
  2:{ intros [hs bs] i. unfold fade_out_step. simpl.
      destruct (decide (rd bs i <> 0)); [reflexivity|].
      rewrite insert_rd_id. reflexivity. }
  rewrite (foldl_bright (fun i l => <[i := fade_out_step (rd l i)]> l)).
  f_equal. rewrite <- Hlen. apply for_upto_pointwise.
Qed.

Lemma iter_fade (step : Z -> Z) (op : Bling.buffer -> Bling.buffer) :
  (forall b, length (Bling.NEO_bright b) = 16%nat ->
             op b = Bling.Buffer (Bling.NEO_hue b) (map step (Bling.NEO_bright b))) ->
  forall n b, length (Bling.NEO_bright b) = 16%nat ->
    Nat.iter n op b
    = Bling.Buffer (Bling.NEO_hue b) (map (Nat.iter n step) (Bling.NEO_bright b)).
Proof.
  intros Hop n b Hlen. induction n as [|n IH]; simpl.
  - destruct b as [hs bs]. simpl. rewrite map_id. reflexivity.
  - rewrite IH, Hop by (simpl; rewrite length_map; exact Hlen).
    simpl. rewrite map_map. reflexivity.
Qed.

(** ** Fading *)

(** C6.  At every position a brightness of 0 is 6 after six calls of
    [NEO_fadeIn] and still 6 after a seventh; a brightness of 6 is 0 after
    six calls of [NEO_fadeOut] and still 0 after a seventh.  A single call is
    a no-op on a brightness that is already at its extreme, and no call
    touches the hues. *)
Theorem fade_reaches_and_keeps_extreme (b : Bling.buffer) (i : nat) :
  length (Bling.NEO_bright b) = 16%nat -> (i < 16)%nat ->
  (rd (Bling.NEO_bright b) i = 0 ->
   rd (Bling.NEO_bright (Nat.iter 6 Bling.NEO_fadeIn b)) i = 6 /\
   rd (Bling.NEO_bright (Nat.iter 7 Bling.NEO_fadeIn b)) i = 6) /\
  (rd (Bling.NEO_bright b) i = 6 ->
   rd (Bling.NEO_bright (Nat.iter 6 Bling.NEO_fadeOut b)) i = 0 /\
   rd (Bling.NEO_bright (Nat.iter 7 Bling.NEO_fadeOut b)) i = 0) /\
  (rd (Bling.NEO_bright b) i = 6 -> rd (Bling.NEO_bright (Bling.NEO_fadeIn b)) i = 6) /\
  (rd (Bling.NEO_bright b) i = 0 -> rd (Bling.NEO_bright (Bling.NEO_fadeOut b)) i = 0) /\
  Bling.NEO_hue (Bling.NEO_fadeIn b) = Bling.NEO_hue b /\
  Bling.NEO_hue (Bling.NEO_fadeOut b) = Bling.NEO_hue b.
Proof.
  intros Hlen Hi.
  pose proof (iter_fade fade_in_step Bling.NEO_fadeIn NEO_fadeIn_map) as Hin.
  pose proof (iter_fade fade_out_step Bling.NEO_fadeOut NEO_fadeOut_map) as Hout.
  rewrite !Hin, !Hout, NEO_fadeIn_map, NEO_fadeOut_map by exact Hlen.
  simpl Bling.NEO_bright. simpl Bling.NEO_hue.
  rewrite !rd_map by lia.
  split; [intros ->; split; reflexivity|].
  split; [intros ->; split; reflexivity|].
  split; [intros ->; reflexivity|].
  split; [intros ->; reflexivity|].
  split; reflexivity.
Qed.

Lemma fade_reaches_and_keeps_extreme_witness :
  rd (Bling.NEO_bright
        (Nat.iter 6 Bling.NEO_fadeIn
           (Bling.Buffer (replicate 16 7) (replicate 16 0)))) 3 = 6.
Proof.
  destruct (fade_reaches_and_keeps_extreme
              (Bling.Buffer (replicate 16 7) (replicate 16 0)) 3
              eq_refl ltac:(lia)) as (Hin & _).
  apply Hin. reflexivity.
Defined.

(** ** Rotation *)

Ltac explode l H :=
  simpl in H;
  do 16 (destruct l as [|? l]; [discriminate H|]; simpl in H);
  destruct l; [clear H|discriminate H].

(** In list terms: clockwise moves the last cell to the front, counter
    clockwise moves the first cell to the back. *)
Lemma NEO_cw_lists (b : Bling.buffer) :
  length (Bling.NEO_hue b) = 16%nat -> length (Bling.NEO_bright b) = 16%nat ->
  Bling.NEO_cw b
  = Bling.Buffer (rd (Bling.NEO_hue b) 15 :: take 15 (Bling.NEO_hue b))
                 (rd (Bling.NEO_bright b) 15 :: take 15 (Bling.NEO_bright b)).
Proof.
  destruct b as [hs bs]. cbn [Bling.NEO_hue Bling.NEO_bright]. intros Hh Hb.
  explode hs Hh. explode bs Hb. vm_compute. reflexivity.
Qed.

Lemma NEO_ccw_lists (b : Bling.buffer) :
  length (Bling.NEO_hue b) = 16%nat -> length (Bling.NEO_bright b) = 16%nat ->
  Bling.NEO_ccw b
  = Bling.Buffer (drop 1 (Bling.NEO_hue b) ++ [rd (Bling.NEO_hue b) 0])
                 (drop 1 (Bling.NEO_bright b) ++ [rd (Bling.NEO_bright b) 0]).
Proof.
  destruct b as [hs bs]. cbn [Bling.NEO_hue Bling.NEO_bright]. intros Hh Hb.
  explode hs Hh. explode bs Hb. vm_compute. reflexivity.
Qed.

(** C4.  Sixteen clockwise rotations, and sixteen counter clockwise ones,
    give back the buffer.  One clockwise rotation moves the hue and the
    brightness of cell [i] together to cell [i+1] (cell 15 to cell 0); one
    counter clockwise rotation moves both from cell [i+1] to cell [i]; the
    two undo each other. *)
Theorem rotation_round_trip (b : Bling.buffer) (i : nat) :
  length (Bling.NEO_hue b) = 16%nat -> length (Bling.NEO_bright b) = 16%nat ->
  (i < 16)%nat ->
  Nat.iter 16 Bling.NEO_cw b = b /\
  Nat.iter 16 Bling.NEO_ccw b = b /\
  rd (Bling.NEO_hue (Bling.NEO_cw b)) ((i + 1) mod 16) = rd (Bling.NEO_hue b) i /\
  rd (Bling.NEO_bright (Bling.NEO_cw b)) ((i + 1) mod 16) = rd (Bling.NEO_bright b) i /\
  rd (Bling.NEO_hue (Bling.NEO_ccw b)) i = rd (Bling.NEO_hue b) ((i + 1) mod 16) /\
  rd (Bling.NEO_bright (Bling.NEO_ccw b)) i = rd (Bling.NEO_bright b) ((i + 1) mod 16) /\
  Bling.NEO_ccw (Bling.NEO_cw b) = b /\
  Bling.NEO_cw (Bling.NEO_ccw b) = b.
Proof.
  destruct b as [hs bs]. cbn [Bling.NEO_hue Bling.NEO_bright]. intros Hh Hb Hi.
  explode hs Hh. explode bs Hb.
  split; [vm_compute; reflexivity|]. split; [vm_compute; reflexivity|].
  repeat split;
    solve [ vm_compute; reflexivity
          | do 16 (destruct i as [|i]; [vm_compute; reflexivity|]); lia ].
Qed.

Lemma rotation_round_trip_witness :
  Nat.iter 16 Bling.NEO_cw
    (Bling.Buffer (map Z.of_nat (seq 0 16)) (map Z.of_nat (seq 100 16)))
  = Bling.Buffer (map Z.of_nat (seq 0 16)) (map Z.of_nat (seq 100 16)).
Proof.
  destruct (rotation_round_trip
              (Bling.Buffer (map Z.of_nat (seq 0 16)) (map Z.of_nat (seq 100 16)))
              4 eq_refl eq_refl ltac:(lia)) as (Hcw & _).
  exact Hcw.
Defined.

(** ** Frames *)

Lemma show_pixel_length (h br : Z) :
  0 <= h < 256 ->
  length (Bling.NEO_show_pixel h br) = if decide (h < 192) then 3%nat else 0%nat.
Proof.
  intros H. unfold Bling.NEO_show_pixel, Bling.phase_of. rewrite shiftr6.
  destruct (phase_cases h H) as [[-> ?]|[[-> ?]|[[-> ?]|[-> ?]]]];
    destruct (decide (h < 192)); simpl; lia.
Qed.

Lemma writeHue_length (h : Z) :
  0 <= h < 256 ->
  length (WOF.NEO_writeHue h) = if decide (h < 192) then 3%nat else 0%nat.
Proof.
  intros H. unfold WOF.NEO_writeHue, WOF.phase_of. rewrite shiftr6.
  destruct (phase_cases h H) as [[-> ?]|[[-> ?]|[[-> ?]|[-> ?]]]];
    destruct (decide (h < 192)); simpl; lia.
Qed.

Lemma concat_length_3 (f : nat -> list Z) (xs : list nat) :
  (forall x, In x xs -> length (f x) = 3%nat) ->
  length (concat (map f xs)) = (3 * length xs)%nat.
Proof.
  induction xs as [|x xs IH]; intros H; simpl; [reflexivity|].
  rewrite length_app, (H x) by (left; reflexivity).
  rewrite IH by (intros y Hy; apply H; right; exact Hy). lia.
Qed.

(** A buffer whose hues are all on the wheel is sent as 48 bytes. *)
Lemma full_frame_length (b : Bling.buffer) :
  (forall j, (j < 16)%nat -> 0 <= rd (Bling.NEO_hue b) j < 192) ->
  length (Bling.NEO_show b) = 48%nat.
Proof.
  intros H. rewrite NEO_show_pixels, concat_length_3; [reflexivity|].
  intros j Hj. apply in_seq in Hj. unfold pixel_bytes.
  rewrite show_pixel_length by (specialize (H j); lia).
  destruct (decide _); [reflexivity|]. specialize (H j). lia.
Qed.

(** C10.  A hue byte below 192 is encoded as three channel bytes, a hue byte
    from 192 on as none, in both sketches.  So if cell [k] of the buffer
    holds such a hue and the other cells do not, [NEO_show] sends the pixels
    before [k] followed directly by the pixels after [k]: 45 bytes, with the
    data of every later pixel three bytes early. *)
Theorem out_of_domain_hue_shortens_frame (b : Bling.buffer) (k : nat) (h br : Z) :
  (k < 16)%nat -> 0 <= h < 256 ->
  192 <= rd (Bling.NEO_hue b) k < 256 ->
  (forall j, (j < 16)%nat -> j <> k -> 0 <= rd (Bling.NEO_hue b) j < 192) ->
  length (Bling.NEO_show_pixel h br) = (if decide (h < 192) then 3%nat else 0%nat) /\
  length (WOF.NEO_writeHue h) = (if decide (h < 192) then 3%nat else 0%nat) /\
  pixel_bytes b k = [] /\
  Bling.NEO_show b
  = concat (map (pixel_bytes b) (seq 0 k))
    ++ concat (map (pixel_bytes b) (seq (Datatypes.S k) (15 - k))) /\
  length (Bling.NEO_show b) = 45%nat.
Proof.
  intros Hk Hh Hbad Hgood.
  split; [apply show_pixel_length, Hh|].
  split; [apply writeHue_length, Hh|].
  assert (Hnil : pixel_bytes b k = []).
  { apply nil_length_inv. unfold pixel_bytes.
    rewrite show_pixel_length by lia.
    destruct (decide _); [lia|reflexivity]. }
  split; [exact Hnil|].
  assert (Hsplit : Bling.NEO_show b
    = concat (map (pixel_bytes b) (seq 0 k))
      ++ concat (map (pixel_bytes b) (seq (Datatypes.S k) (15 - k)))).
  { rewrite NEO_show_pixels.
    replace 16%nat with (k + Datatypes.S (15 - k))%nat at 1 by lia.
    rewrite seq_app, map_app, concat_app. simpl. rewrite Hnil. reflexivity. }
  split; [exact Hsplit|].
  rewrite Hsplit, length_app, !concat_length_3.
  - rewrite !length_seq. lia.
  - intros j Hj. apply in_seq in Hj. unfold pixel_bytes.
    rewrite show_pixel_length by (specialize (Hgood j); lia).
    destruct (decide _); [reflexivity|]. specialize (Hgood j). lia.
  - intros j Hj. apply in_seq in Hj. unfold pixel_bytes.
    rewrite show_pixel_length by (specialize (Hgood j); lia).
    destruct (decide _); [reflexivity|]. specialize (Hgood j). lia.
Qed.

Lemma out_of_domain_hue_shortens_frame_witness :
  length (Bling.NEO_show
            (Bling.Buffer (<[5%nat := 200]> (replicate 16 10)) (replicate 16 6)))
  = 45%nat.
Proof.
  assert (Hgood : forall j, (j < 16)%nat -> j <> 5%nat ->
            0 <= rd (<[5%nat := 200]> (replicate 16 10)) j < 192).
  { intros j Hj Hne.
    do 16 (destruct j as [|j]; [first [congruence | vm_compute; split; congruence]|]).
    lia. }
  destruct (out_of_domain_hue_shortens_frame
              (Bling.Buffer (<[5%nat := 200]> (replicate 16 10)) (replicate 16 6))
              5 200 6 ltac:(lia) ltac:(lia)
              ltac:(vm_compute; split; congruence) Hgood)
    as (_ & _ & _ & _ & Hlen).
  exact Hlen.
Defined.

(** ** The spin of the reactive sketch *)

Lemma speed_up_more_fuel (f : nat) :
  forall f' w r, (f <= f')%nat ->
    WOF.speed_up f w = Some r -> WOF.speed_up f' w = Some r.
Proof.
  induction f as [|f IH]; intros f' w r Hle H; [discriminate H|].
  destruct f' as [|f']; [lia|]. simpl in *.
  destruct (decide (u8 (WOF.speed w - 1) = 0)); [exact H|].
  destruct (WOF.speed_up f _) as [[w2 shown]|] eqn:E; [|discriminate H].
  rewrite (IH f' _ _ ltac:(lia) E). exact H.
Qed.

Lemma slow_down_more_fuel (f : nat) :
  forall f' w r, (f <= f')%nat ->
    WOF.slow_down f w = Some r -> WOF.slow_down f' w = Some r.
Proof.
  induction f as [|f IH]; intros f' w r Hle H; [discriminate H|].
  destruct f' as [|f']; [lia|]. simpl in *.
  destruct (decide (u8 (WOF.speed w + 1) < 96)); [|exact H].
  destruct (WOF.slow_down f _) as [[w2 shown]|] eqn:E; [|discriminate H].
  rewrite (IH f' _ _ ltac:(lia) E). exact H.
Qed.

Lemma spin_more_fuel (f f' : nat) (w : WOF.wheel) r :
  (f <= f')%nat -> WOF.spin f w = Some r -> WOF.spin f' w = Some r.
Proof.
  intros Hle H. unfold WOF.spin in *.
  destruct (WOF.speed_up f w) as [[w1 s1]|] eqn:E1; [|discriminate H].
  rewrite (speed_up_more_fuel f f' w _ Hle E1).
  destruct (WOF.slow_down f w1) as [[w2 s2]|] eqn:E2; [|discriminate H].
  rewrite (slow_down_more_fuel f f' w1 _ Hle E2). exact H.
Qed.

Lemma track_app (a b : nat) :
  forall p, track (a + b) p = track a p ++ track b (Nat.iter a next_pair p).
Proof.
  induction a as [|a IH]; intros p; simpl; [reflexivity|].
  rewrite IH, <- Nat.iter_succ_r. reflexivity.
Qed.

Lemma speed_up_step (f : nat) (n s h : Z) :
  u8 (s - 1) <> 0 ->
  WOF.speed_up (Datatypes.S f) (WOF.Wheel n s h)
  = match WOF.speed_up f (WOF.Wheel (fst (next_pair (n, h))) (u8 (s - 1))
                                    (snd (next_pair (n, h)))) with
    | Some (w2, shown) => Some (w2, next_pair (n, h) :: shown)
    | None => None
    end.
Proof.
  intros H. simpl. destruct (decide (u8 (s - 1) = 0)); [contradiction|reflexivity].
Qed.

Lemma slow_down_step (f : nat) (n s h : Z) :
  u8 (s + 1) < 96 ->
  WOF.slow_down (Datatypes.S f) (WOF.Wheel n s h)
  = match WOF.slow_down f (WOF.Wheel (fst (next_pair (n, h))) (u8 (s + 1))
                                     (snd (next_pair (n, h)))) with
    | Some (w2, shown) => Some (w2, next_pair (n, h) :: shown)
    | None => None
    end.
Proof.
  intros H. simpl. destruct (decide (u8 (s + 1) < 96)); [reflexivity|contradiction].
Qed.

(** The first loop runs [u8 (speed - 1)] times and leaves [speed = 0]. *)
Lemma speed_up_runs (c : nat) :
  forall n s h, 0 <= s < 256 -> Z.to_nat (u8 (s - 1)) = c ->
    WOF.speed_up (Datatypes.S c) (WOF.Wheel n s h)
    = Some (WOF.Wheel (fst (Nat.iter c next_pair (n, h))) 0
                      (snd (Nat.iter c next_pair (n, h))),
            track c (n, h)).
Proof.
  induction c as [|c IH]; intros n s h Hs Hc.
  - pose proof (u8_range (s - 1)) as R.
    simpl. destruct (decide (u8 (s - 1) = 0)) as [->|]; [reflexivity|lia].
  - pose proof (u8_range (s - 1)) as R.
    rewrite speed_up_step by lia.
    rewrite IH; [|lia|rewrite (u8_small (u8 (s - 1) - 1)) by lia; lia].
    rewrite <- !surjective_pairing, <- !Nat.iter_succ_r. reflexivity.
Qed.

(** From [speed = s <= 95] the second loop runs [95 - s] times and leaves
    [speed = 96]. *)
Lemma slow_down_runs (c : nat) :
  forall n s h, 0 <= s <= 95 -> Z.to_nat (95 - s) = c ->
    WOF.slow_down (Datatypes.S c) (WOF.Wheel n s h)
    = Some (WOF.Wheel (fst (Nat.iter c next_pair (n, h))) 96
                      (snd (Nat.iter c next_pair (n, h))),
            track c (n, h)).
Proof.
  induction c as [|c IH]; intros n s h Hs Hc.
  - assert (s = 95) as -> by lia. reflexivity.
  - rewrite slow_down_step by (rewrite u8_small; lia).
    rewrite (u8_small (s + 1)) by lia.
    rewrite IH by lia.
    rewrite <- !surjective_pairing, <- !Nat.iter_succ_r. reflexivity.
Qed.

Lemma spin_runs (w : WOF.wheel) :
  0 <= WOF.speed w < 256 ->
  let c := (Z.to_nat (u8 (WOF.speed w - 1)) + 95)%nat in
  WOF.spin 256 w
  = Some (WOF.Wheel (fst (Nat.iter c next_pair (WOF.number w, WOF.hue w))) 96
                    (snd (Nat.iter c next_pair (WOF.number w, WOF.hue w))),
          track c (WOF.number w, WOF.hue w)).
Proof.
  intros Hs c. destruct w as [n s h]. cbn [WOF.speed WOF.number WOF.hue] in *.
  pose proof (u8_range (s - 1)) as R.
  unfold WOF.spin.
  pose proof (speed_up_runs (Z.to_nat (u8 (s - 1))) n s h Hs eq_refl) as E1.
  apply (speed_up_more_fuel _ 256) in E1; [|lia]. rewrite E1.
  match goal with |- context [WOF.slow_down 256 (WOF.Wheel ?n1 0 ?h1)] =>
    pose proof (slow_down_runs 95 n1 0 h1 ltac:(lia) eq_refl) as E2
  end.
  apply (slow_down_more_fuel _ 256) in E2; [|lia]. rewrite E2.
  subst c. rewrite track_app.
  rewrite <- surjective_pairing.
  rewrite (Nat.add_comm _ 95), Nat.iter_add. reflexivity.
Qed.

Lemma next_pair_closed (n h : Z) :
  0 <= h < 192 -> next_pair (n, h) = ((n + 1) mod 16, (h + 1) mod 192).
Proof.
  intros H. unfold next_pair, WOF.next_pixel. cbn [WOF.number WOF.hue fst snd].
  rewrite land15, (u8_small (h + 1)) by lia. f_equal.
  destruct (decide (h + 1 > 191)).
  - replace (h + 1) with 192 by lia. reflexivity.
  - symmetry. apply Z.mod_small. lia.
Qed.

(** On the wheel the [k]-th pixel shown is [k] places and [k] hues further. *)
Lemma track_closed (c : nat) :
  forall n h, 0 <= h < 192 ->
    track c (n, h)
    = map (fun k => ((n + Z.of_nat k) mod 16, (h + Z.of_nat k) mod 192)) (seq 1 c).
Proof.
  induction c as [|c IH]; intros n h Hh; [reflexivity|].
  cbn [track]. rewrite next_pair_closed by exact Hh.
  rewrite IH by (apply Z.mod_pos_bound; lia).
  cbn [seq map]. f_equal.
  rewrite <- (seq_shift c 1), map_map. apply map_ext. intros k.
  rewrite Z.add_mod_idemp_l, (Z.add_mod_idemp_l (h + 1)) by lia.
  f_equal; f_equal; lia.
Qed.

Lemma start_speed_range (tcnt0 : Z) : 16 <= WOF.start_speed tcnt0 < 32.
Proof.
  unfold WOF.start_speed. rewrite land15.
  pose proof (Z.mod_pos_bound tcnt0 16 ltac:(lia)).
  rewrite u8_small; lia.
Qed.

(** C8.  A spin ends, and what it shows is fixed by the three values it
    starts from: two runs that both end agree on the final state and on the
    list of (position, hue) pairs, whatever else differs between them; the
    timer enters only through the start speed, which lies in 16..31.  The
    list has [u8 (speed - 1) + 95] entries, and from a hue on the wheel the
    [k]-th entry is [k] positions and [k] hues past the start. *)
Theorem spin_is_reproducible
    (w : WOF.wheel) (f1 f2 : nat) (r1 r2 : WOF.wheel * list (Z * Z)) (t1 t2 : Z) :
  0 <= WOF.speed w < 256 ->
  (WOF.spin f1 w = Some r1 -> WOF.spin f2 w = Some r2 -> r1 = r2) /\
  (exists r, WOF.spin 256 w = Some r /\
     WOF.speed (fst r) = 96 /\
     snd r = track (Z.to_nat (u8 (WOF.speed w - 1)) + 95) (WOF.number w, WOF.hue w)) /\
  (0 <= WOF.hue w < 192 ->
   forall r, WOF.spin 256 w = Some r ->
     snd r = map (fun k => ((WOF.number w + Z.of_nat k) mod 16,
                            (WOF.hue w + Z.of_nat k) mod 192))
                 (seq 1 (Z.to_nat (u8 (WOF.speed w - 1)) + 95))) /\
  16 <= WOF.start_speed t1 < 32 /\
  (WOF.start_speed t1 = WOF.start_speed t2 -> WOF.press f1 t1 w = WOF.press f1 t2 w).
Proof.
  intros Hs. pose proof (spin_runs w Hs) as Hrun. cbv zeta in Hrun.
  split; [|split; [|split; [|split]]].
  - intros H1 H2.
    apply (spin_more_fuel f1 (Nat.max f1 f2)) in H1; [|lia].
    apply (spin_more_fuel f2 (Nat.max f1 f2)) in H2; [|lia].
    congruence.
  - eexists. split; [exact Hrun|]. split; reflexivity.
  - intros Hh r Hr. rewrite Hrun in Hr. injection Hr as <-.
    cbn [snd]. apply track_closed, Hh.
  - apply start_speed_range.
  - intros E. unfold WOF.press. rewrite E. reflexivity.
Qed.

Lemma spin_is_reproducible_witness :
  exists r, WOF.spin 256 (WOF.Wheel 3 20 190) = Some r /\
    WOF.speed (fst r) = 96 /\
    snd r = track (Z.to_nat (u8 (20 - 1)) + 95) (3, 190).
Proof.
  destruct (spin_is_reproducible (WOF.Wheel 3 20 190) 256 256
              (WOF.Wheel 0 0 0, []) (WOF.Wheel 0 0 0, []) 4 20
              ltac:(simpl; lia)) as (_ & Hex & _).
  exact Hex.
Defined.

(** ** The ambient state machine *)

(** The six locals evolve as [locals_step] says, whatever the arrays and the
    generator hold and whichever argument of [NEO_set] is evaluated first. *)
Lemma locals_simulation (o : Bling.arg_order) (m : Bling.machine) :
  locals_of (Bling.tick o m) = locals_step (locals_of m).
Proof.
  destruct m as [b r s c h1 h2 p1 p2].
  unfold Bling.tick, locals_step.
  assert (Hanim : locals_of (fst (Bling.animate o (Bling.Machine b r s c h1 h2 p1 p2)))
                  = locals_animate (Locals s c h1 h2 p1 p2)).
  { unfold Bling.animate, locals_animate, locals_of.
    cbn [Bling.state Bling.counter Bling.hue1 Bling.hue2 Bling.ptr1 Bling.ptr2
         Bling.buf Bling.rn l_state l_counter l_hue1 l_hue2 l_ptr1 l_ptr2].
    destruct s as [|p|p]; [reflexivity| |reflexivity].
    do 3 (try destruct p as [p|p|]); try reflexivity.
    (* state 2: the number of sparks is not known *)
    destruct (Bling.prng 4 r) as [i r1].
    destruct (for_downto _ _ _). reflexivity. }
  change (locals_of (Bling.Machine b r s c h1 h2 p1 p2))
    with (Locals s c h1 h2 p1 p2).
  rewrite <- Hanim.
  destruct (fst (Bling.animate o _)) as [b' r' s' c' h1' h2' p1' p2'].
  unfold Bling.advance, locals_advance, locals_of.
  cbn [Bling.state Bling.counter Bling.hue1 Bling.hue2 Bling.ptr1 Bling.ptr2
       Bling.buf Bling.rn l_state l_counter l_hue1 l_hue2 l_ptr1 l_ptr2].
  destruct (decide (u8 (c' - 1) = 0)); reflexivity.
Qed.

Lemma locals_simulation_iter (o : Bling.arg_order) (n : nat) (m : Bling.machine) :
  locals_of (Bling.ticks o n m) = Nat.iter n locals_step (locals_of m).
Proof.
  unfold Bling.ticks. induction n as [|n IH]; simpl; [reflexivity|].
  rewrite locals_simulation, IH. reflexivity.
Qed.

Lemma state_of_locals (m : Bling.machine) : Bling.state m = l_state (locals_of m).
Proof. reflexivity. Qed.

Lemma counter_of_locals (m : Bling.machine) : Bling.counter m = l_counter (locals_of m).
Proof. reflexivity. Qed.

Lemma away_from_zero_spec (k : nat) :
  forall l, away_from_zero k l = true ->
  forall j, (0 < j <= k)%nat -> l_state (Nat.iter j locals_step l) <> 0.
Proof.
  induction k as [|k IH]; intros l H j Hj; [lia|].
  simpl in H. apply andb_true_iff in H as [Hnow Hlater].
  destruct j as [|j]; [lia|]. rewrite Nat.iter_succ_r.
  destruct j as [|j].
  - simpl. apply negb_true_iff, Z.eqb_neq in Hnow. exact Hnow.
  - apply IH; [exact Hlater|lia].
Qed.

(** C2, as the code has it.  States 0, 3 and 5 set the counter to 1 and so
    last one tick; the other five last 76 ticks.  From state 0 the machine is
    therefore back in state 0 after 1+76+76+1+76+1+76+76 = 383 ticks, not
    before, and not after 8 x 76 = 608 ticks (it is then in state 4 with 5
    ticks to go).  At every return the six locals have the same values, and
    one tick later state 0 has set them up for state 1 exactly as it did one
    tick after the start. *)
Theorem ambient_cycle_closure (o : Bling.arg_order) (m : Bling.machine) (n : nat) :
  Bling.state m = 0 ->
  locals_of (Bling.ticks o Bling.cycle_length m) = Locals 0 76 36 16 12 4 /\
  locals_of (Bling.ticks o (2 * Bling.cycle_length) m)
  = locals_of (Bling.ticks o Bling.cycle_length m) /\
  locals_of (Bling.ticks o 1 m) = Locals 1 76 0 96 0 8 /\
  locals_of (Bling.ticks o (Bling.cycle_length + 1) m) = locals_of (Bling.ticks o 1 m) /\
  ((0 < n < Bling.cycle_length)%nat -> Bling.state (Bling.ticks o n m) <> 0) /\
  Bling.state (Bling.ticks o (8 * 76) m) = 4 /\
  Bling.counter (Bling.ticks o (8 * 76) m) = 5.
Proof.
  intros H0.
  rewrite (state_of_locals (Bling.ticks o n m)).
  rewrite (state_of_locals (Bling.ticks o (8 * 76) m)).
  rewrite (counter_of_locals (Bling.ticks o (8 * 76) m)).
  rewrite !locals_simulation_iter.
  destruct m as [b r s c h1 h2 p1 p2]. cbn [Bling.state] in H0. subst s.
  change (locals_of (Bling.Machine b r 0 c h1 h2 p1 p2)) with (Locals 0 c h1 h2 p1 p2).
  split; [vm_compute; reflexivity|].
  split; [vm_compute; reflexivity|].
  split; [vm_compute; reflexivity|].
  split; [vm_compute; reflexivity|].
  split; [|split; vm_compute; reflexivity].
  intros Hn. apply (away_from_zero_spec 382); [vm_compute; reflexivity|].
  unfold Bling.cycle_length in Hn. simpl in Hn. lia.
Qed.

Lemma ambient_cycle_closure_witness :
  locals_of (Bling.ticks Bling.LeftFirst Bling.cycle_length
               (Bling.power_on 76 0 0 0 0))
  = Locals 0 76 36 16 12 4.
Proof.
  destruct (ambient_cycle_closure Bling.LeftFirst (Bling.power_on 76 0 0 0 0) 1
              eq_refl) as (Hback & _).
  exact Hback.
Defined.

(** C2 as stated fails: 8 x 76 ticks after power-on the machine is in state
    4, in the middle of its second pass. *)
Lemma not_back_after_608_ticks :
  Bling.state (Bling.power_on 76 0 0 0 0) = 0 /\
  Bling.state (Bling.ticks Bling.LeftFirst (8 * 76) (Bling.power_on 76 0 0 0 0)) = 4 /\
  Bling.state (Bling.ticks Bling.RightFirst (8 * 76) (Bling.power_on 76 0 0 0 0)) = 4 /\
  Bling.state (Bling.ticks Bling.LeftFirst (8 * 76) (Bling.power_on 76 0 0 0 0)) <> 0.
Proof.
  assert (H : Bling.state (Bling.ticks Bling.LeftFirst (8 * 76)
                             (Bling.power_on 76 0 0 0 0)) = 4)
    by (vm_compute; reflexivity).
  split; [reflexivity|]. split; [exact H|].
  split; [vm_compute; reflexivity|]. rewrite H. discriminate.
Qed.

(** ** Hues stay on the wheel *)

Lemma foldl_seq_ind {S : Type} (Q : nat -> S -> Prop) (body : nat -> S -> S) (k : nat) :
  forall a s,
    Q a s ->
    (forall i s, (a <= i < a + k)%nat -> Q i s -> Q (Datatypes.S i) (body i s)) ->
    Q (a + k)%nat (foldl (fun acc i => body i acc) s (seq a k)).
Proof.
  induction k as [|k IH]; intros a s H0 Hstep; simpl.
  - rewrite Nat.add_0_r. exact H0.
  - rewrite <- Nat.add_succ_comm. apply IH.
    + apply Hstep; [lia|exact H0].
    + intros i s' Hi. apply Hstep. lia.
Qed.

(** Loop invariants for the two loop shapes. *)
Lemma for_upto_ind {S : Type} (Q : nat -> S -> Prop) (n : nat) (body : nat -> S -> S) (s : S) :
  Q 0%nat s ->
  (forall i s, (i < n)%nat -> Q i s -> Q (Datatypes.S i) (body i s)) ->
  Q n (for_upto n body s).
Proof.
  intros H0 Hstep. apply (foldl_seq_ind Q body n 0 s H0).
  intros i s' Hi. apply Hstep. lia.
Qed.

Lemma for_downto_inv {S : Type} (P : S -> Prop) (n : nat) (body : nat -> S -> S) :
  (forall i s, P s -> P (body i s)) ->
  forall s, P s -> P (for_downto n body s).
Proof.
  intros Hstep. induction n as [|n IH]; intros s H; simpl; [exact H|].
  apply IH, Hstep, H.
Qed.

Lemma on_wheel_rd (l : list Z) (i : nat) : Forall on_wheel l -> on_wheel (rd l i).
Proof.
  intros H. unfold rd. destruct (l !! i) as [x|] eqn:E; simpl.
  - exact (Forall_lookup_1 _ _ _ _ H E).
  - unfold on_wheel. lia.
Qed.

Lemma on_wheel_wrap192 (x : Z) : on_wheel (Bling.wrap192 (u8 x)).
Proof.
  pose proof (u8_range x) as R. unfold Bling.wrap192, on_wheel.
  destruct (decide (u8 x > 191)); [|lia].
  rewrite u8_small; lia.
Qed.

Lemma on_wheel_prng192 (r : Z) : on_wheel (u8 (fst (Bling.prng 192 r))).
Proof.
  unfold on_wheel. simpl.
  pose proof (Z.mod_pos_bound (Bling.lfsr r) 192 ltac:(lia)).
  rewrite u8_small; lia.
Qed.

Lemma hue_NEO_set (n h : Z) (b : Bling.buffer) :
  Forall on_wheel (Bling.NEO_hue b) -> on_wheel h ->
  Forall on_wheel (Bling.NEO_hue (Bling.NEO_set n h b)).
Proof. intros Hb Hh. simpl. apply Forall_insert; assumption. Qed.

Lemma hue_NEO_fadeOut (b : Bling.buffer) :
  Bling.NEO_hue (Bling.NEO_fadeOut b) = Bling.NEO_hue b.
Proof.
  unfold Bling.NEO_fadeOut.
  apply (for_upto_ind (fun _ b' => Bling.NEO_hue b' = Bling.NEO_hue b)); [reflexivity|].
  intros i b' _ H. destruct (decide _); [simpl|]; exact H.
Qed.

Lemma hue_NEO_fill (h : Z) (b : Bling.buffer) :
  Forall on_wheel (Bling.NEO_hue b) -> on_wheel h ->
  Forall on_wheel (Bling.NEO_hue (Bling.NEO_fill h b)).
Proof.
  intros Hb Hh. unfold Bling.NEO_fill.
  apply (for_upto_ind (fun _ b' => Forall on_wheel (Bling.NEO_hue b'))); [exact Hb|].
  intros i b' _ H. simpl. apply Forall_insert; assumption.
Qed.

Lemma hue_NEO_cw (b : Bling.buffer) :
  Forall on_wheel (Bling.NEO_hue b) ->
  Forall on_wheel (Bling.NEO_hue (Bling.NEO_cw b)).
Proof.
  intros Hb. unfold Bling.NEO_cw. cbn [Bling.NEO_hue].
  apply Forall_insert; [|apply on_wheel_rd, Hb].
  apply (for_downto_inv (fun b' => Forall on_wheel (Bling.NEO_hue b'))); [|exact Hb].
  intros i b' H. simpl. apply Forall_insert; [exact H|apply on_wheel_rd, H].
Qed.

Lemma hue_set_random (o : Bling.arg_order) (br : Bling.buffer * Z) :
  Forall on_wheel (Bling.NEO_hue (fst br)) ->
  Forall on_wheel (Bling.NEO_hue (fst (Bling.set_random o br))).
Proof.
  destruct br as [b r]. intros H. destruct o; simpl; apply Forall_insert; try exact H.
  - apply (on_wheel_prng192 (Bling.lfsr r)).
  - apply (on_wheel_prng192 r).
Qed.

(** The five loops of [animate] that write hues. *)
Lemma hue_state2 (o : Bling.arg_order) (k : nat) (b : Bling.buffer) (r : Z) :
  Forall on_wheel (Bling.NEO_hue b) ->
  Forall on_wheel
    (Bling.NEO_hue (fst (for_downto k (fun _ => Bling.set_random o) (b, r)))).
Proof.
  intros H.
  apply (for_downto_inv (fun br => Forall on_wheel (Bling.NEO_hue (fst br)))); [|exact H].
  intros _ br. apply hue_set_random.
Qed.

Lemma hue_state3 (b : Bling.buffer) (r : Z) :
  Forall on_wheel (Bling.NEO_hue b) ->
  Forall on_wheel
    (Bling.NEO_hue (fst (for_upto 16
       (fun i (br : Bling.buffer * Z) =>
          let (h, r') := Bling.prng 192 (snd br) in
          (Bling.NEO_set (Z.of_nat i) (u8 h) (fst br), r'))
       (b, r)))).
Proof.
  intros H.
  apply (for_upto_ind (fun _ br => Forall on_wheel (Bling.NEO_hue (fst br)))); [exact H|].
  intros i [b' r'] _ Hb. simpl in *. apply Forall_insert; [exact Hb|].
  apply (on_wheel_prng192 r').
Qed.

Lemma hue_state4 (b : Bling.buffer) (r : Z) :
  Forall on_wheel (Bling.NEO_hue b) ->
  Forall on_wheel
    (Bling.NEO_hue (fst (for_upto 16
       (fun i (br : Bling.buffer * Z) =>
          let (v, r') := Bling.prng 8 (snd br) in
          let h := Bling.wrap192 (u8 (rd (Bling.NEO_hue (fst br)) i + v)) in
          (Bling.Buffer (<[i := h]> (Bling.NEO_hue (fst br))) (Bling.NEO_bright (fst br)), r'))
       (b, r)))).
Proof.
  intros H.
  apply (for_upto_ind (fun _ br => Forall on_wheel (Bling.NEO_hue (fst br)))); [exact H|].
  intros i [b' r'] _ Hb. simpl in *. apply Forall_insert; [exact Hb|].
  apply on_wheel_wrap192.
Qed.

Lemma hue_state5 (b : Bling.buffer) :
  Forall on_wheel (Bling.NEO_hue b) ->
  Forall on_wheel
    (Bling.NEO_hue (fst (for_upto 16
       (fun i (bh : Bling.buffer * Z) =>
          (Bling.NEO_set (Z.of_nat i) (snd bh) (fst bh), u8 (snd bh + 12)))
       (b, 0)))) /\
  snd (for_upto 16
       (fun i (bh : Bling.buffer * Z) =>
          (Bling.NEO_set (Z.of_nat i) (snd bh) (fst bh), u8 (snd bh + 12)))
       (b, 0)) = 192.
Proof.
  intros H.
  apply (for_upto_ind
           (fun i bh => Forall on_wheel (Bling.NEO_hue (fst bh)) /\
                        snd bh = 12 * Z.of_nat i)).
  - split; [exact H|reflexivity].
  - intros i [b' h'] Hi [Hb Hh]. cbn [fst snd] in *. subst h'. split.
    + apply hue_NEO_set; [exact Hb|unfold on_wheel; lia].
    + rewrite u8_small; lia.
Qed.

Ltac machine_fields :=
  cbn [Bling.state Bling.counter Bling.hue1 Bling.hue2 Bling.ptr1 Bling.ptr2
       Bling.buf Bling.rn fst snd].

(** Count down and build the invariant for the machine after the tick. *)
Ltac count_down :=
  unfold Bling.advance; machine_fields;
  match goal with
  | |- context [decide (u8 (?c - 1) = 0)] => destruct (decide (u8 (c - 1) = 0))
  end;
  (constructor; machine_fields;
   [ assumption | .. ];
   unfold on_wheel, u8 in *; repeat case_decide; Z.div_mod_to_equations; lia).

(** One tick keeps the machine tidy. *)
Lemma tidy_tick (o : Bling.arg_order) (m : Bling.machine) :
  tidy m -> tidy (Bling.tick o m).
Proof.
  destruct m as [b r s c h1 h2 p1 p2]. intros [Hh Hs H1 Htop H2].
  cbn [Bling.state Bling.counter Bling.hue1 Bling.hue2 Bling.buf] in *.
  unfold Bling.tick, Bling.animate. machine_fields.
  assert (s = 0 \/ s = 1 \/ s = 2 \/ s = 3 \/ s = 4 \/ s = 5 \/ s = 6 \/ s = 7)
    as [-> | [-> | [-> | [-> | [-> | [-> | [-> | ->]]]]]]] by lia.
  - (* 0 *) count_down.
  - (* 1 *)
    pose proof (on_wheel_wrap192 (h1 + 4)) as W1.
    pose proof (on_wheel_wrap192 (h2 + 4)) as W2.
    assert (Forall on_wheel
              (Bling.NEO_hue
                 (Bling.NEO_set (Z.land (p2 + 1) 15) (Bling.wrap192 (u8 (h2 + 4)))
                    (Bling.NEO_set (Z.land (p1 + 1) 15) (Bling.wrap192 (u8 (h1 + 4)))
                       (Bling.NEO_fadeOut b))))).
    { apply hue_NEO_set; [apply hue_NEO_set|]; try assumption.
      rewrite hue_NEO_fadeOut. exact Hh. }
    count_down.
  - (* 2 *)
    destruct (Bling.prng 4 r) as [i r1].
    pose proof (hue_state2 o (Z.to_nat (u8 i)) (Bling.NEO_fadeOut b) r1) as Hb'.
    rewrite hue_NEO_fadeOut in Hb'. specialize (Hb' Hh).
    destruct (for_downto _ _ _) as [b' r']. machine_fields. cbn [fst] in Hb'.
    count_down.
  - (* 3 *)
    pose proof (hue_state3 b r Hh) as Hb'.
    destruct (for_upto 16 _ (b, r)) as [b' r']. machine_fields. cbn [fst] in Hb'.
    count_down.
  - (* 4 *)
    pose proof (hue_state4 b r Hh) as Hb'.
    destruct (for_upto 16 _ (b, r)) as [b' r']. machine_fields. cbn [fst] in Hb'.
    count_down.
  - (* 5 *)
    pose proof (hue_state5 b Hh) as [Hb' Hh1].
    destruct (for_upto 16 _ (b, 0)) as [b' h1']. machine_fields.
    cbn [fst snd] in Hb', Hh1. subst h1'.
    count_down.
  - (* 6 *)
    pose proof (hue_NEO_cw b Hh). count_down.
  - (* 7 *)
    pose proof (on_wheel_wrap192 (h1 + 3)) as W1.
    pose proof (hue_NEO_fill (Bling.wrap192 (u8 (h1 + 3))) b Hh W1).
    count_down.
Qed.

(** The first tick tidies up whatever the locals held at power-on. *)
Lemma tidy_first_tick (o : Bling.arg_order) (c h1 h2 p1 p2 : Z) :
  tidy (Bling.tick o (Bling.power_on c h1 h2 p1 p2)).
Proof.
  constructor; try (vm_compute; intuition congruence).
  vm_compute. repeat constructor; congruence.
Qed.

Lemma tidy_ticks (o : Bling.arg_order) (c h1 h2 p1 p2 : Z) (n : nat) :
  (1 <= n)%nat -> tidy (Bling.ticks o n (Bling.power_on c h1 h2 p1 p2)).
Proof.
  intros Hn. destruct n as [|n]; [lia|]. clear Hn.
  induction n as [|n IH].
  - apply tidy_first_tick.
  - change (Bling.ticks o (Datatypes.S (Datatypes.S n)) (Bling.power_on c h1 h2 p1 p2))
      with (Bling.tick o (Bling.ticks o (Datatypes.S n) (Bling.power_on c h1 h2 p1 p2))).
    apply tidy_tick, IH.
Qed.

(** C7, as the code has it.  After every tick from power-on, every hue in the
    buffer and [hue2] are on the wheel.  [hue1] is at most 192: state 5 uses
    it as the loop variable of the rainbow fill and leaves it at 16 x 12 =
    192, where it stays while the state is 6 and until the first tick of
    state 7 wraps it; in every other state it is on the wheel. *)
Theorem hues_stay_on_wheel
    (o : Bling.arg_order) (c h1 h2 p1 p2 : Z) (n i : nat) :
  (1 <= n)%nat ->
  Forall on_wheel
    (Bling.NEO_hue (Bling.buf (Bling.ticks o n (Bling.power_on c h1 h2 p1 p2)))) /\
  on_wheel
    (rd (Bling.NEO_hue (Bling.buf (Bling.ticks o n (Bling.power_on c h1 h2 p1 p2)))) i) /\
  on_wheel (Bling.hue2 (Bling.ticks o n (Bling.power_on c h1 h2 p1 p2))) /\
  0 <= Bling.hue1 (Bling.ticks o n (Bling.power_on c h1 h2 p1 p2)) <= 192 /\
  (Bling.hue1 (Bling.ticks o n (Bling.power_on c h1 h2 p1 p2)) = 192 ->
   Bling.state (Bling.ticks o n (Bling.power_on c h1 h2 p1 p2)) = 6 \/
   Bling.state (Bling.ticks o n (Bling.power_on c h1 h2 p1 p2)) = 7) /\
  (Bling.state (Bling.ticks o n (Bling.power_on c h1 h2 p1 p2)) < 6 ->
   on_wheel (Bling.hue1 (Bling.ticks o n (Bling.power_on c h1 h2 p1 p2)))).
Proof.
  intros Hn. destruct (tidy_ticks o c h1 h2 p1 p2 n Hn) as [Hh Hs H1 Htop H2].
  split; [exact Hh|].
  split; [apply on_wheel_rd, Hh|].
  split; [exact H2|].
  split; [exact H1|].
  split; [exact Htop|].
  intros Hlt. unfold on_wheel. lia.
Qed.

Lemma hues_stay_on_wheel_witness :
  on_wheel (Bling.hue2 (Bling.ticks Bling.LeftFirst 100 (Bling.power_on 7 250 251 17 18))) /\
  on_wheel
    (rd (Bling.NEO_hue
           (Bling.buf (Bling.ticks Bling.LeftFirst 100 (Bling.power_on 7 250 251 17 18))))
        9).
Proof.
  destruct (hues_stay_on_wheel Bling.LeftFirst 7 250 251 17 18 100 9 ltac:(lia))
    as (_ & Hcell & Hhue2 & _).
  split; [exact Hhue2 | exact Hcell].
Defined.

(** C7 as stated fails for [hue1]: 231 ticks after power-on state 5 has just
    run, the state is 6 and [hue1] is 192. *)
Lemma hue1_is_192_after_rainbow_fill :
  Bling.hue1 (Bling.ticks Bling.LeftFirst 231 (Bling.power_on 76 0 0 0 0)) = 192 /\
  Bling.state (Bling.ticks Bling.LeftFirst 231 (Bling.power_on 76 0 0 0 0)) = 6 /\
  Bling.hue1 (Bling.ticks Bling.RightFirst 231 (Bling.power_on 76 0 0 0 0)) = 192 /\
  ~ on_wheel (Bling.hue1 (Bling.ticks Bling.LeftFirst 231 (Bling.power_on 76 0 0 0 0))).
Proof.
  assert (H : Bling.hue1 (Bling.ticks Bling.LeftFirst 231 (Bling.power_on 76 0 0 0 0))
              = 192) by (vm_compute; reflexivity).
  split; [exact H|]. split; [vm_compute; reflexivity|].
  split; [vm_compute; reflexivity|].
  rewrite H. unfold on_wheel. lia.
Qed.

(** * Further properties of the code *)

Lemma all_from_spec (n : nat) (P : Z -> bool) :
  forall z, all_from n z P = true ->
  forall x, z <= x < z + Z.of_nat n -> P x = true.
Proof.
  induction n as [|n IH]; intros z H x Hx; [lia|].
  simpl in H. apply andb_true_iff in H as [Hz Hrest].
  destruct (decide (x = z)) as [->|Hne]; [exact Hz|].
  apply (IH (z + 1) Hrest). lia.
Qed.

(** ** The colour wheel of the reactive sketch *)

Lemma concat_dark (f : nat -> list Z) (xs : list nat) :
  (forall x, In x xs -> f x = [0; 0; 0]) ->
  concat (map f xs) = replicate (3 * length xs) 0.
Proof.
  induction xs as [|x xs IH]; intros H; [reflexivity|].
  cbn [map concat length]. rewrite (H x) by (left; reflexivity).
  rewrite IH by (intros y Hy; apply H; right; exact Hy).
  replace (3 * Datatypes.S (length xs))%nat with (3 + 3 * length xs)%nat by lia.
  reflexivity.
Qed.

(** X1.  [NEO_setPixel] sends one full frame in which only pixel [nr] is
    lit: [3 nr] zero bytes, the three bytes of [NEO_writeHue hue], and zero
    bytes for the remaining pixels, 48 bytes in all. *)
Theorem setPixel_lights_one_pixel (nr hue : Z) :
  0 <= nr < 16 -> 0 <= hue < 192 ->
  WOF.NEO_setPixel nr hue
  = replicate (3 * Z.to_nat nr) 0 ++ WOF.NEO_writeHue hue
    ++ replicate (3 * (15 - Z.to_nat nr)) 0 /\
  length (WOF.NEO_setPixel nr hue) = 48%nat.
Proof.
  intros Hn Hh.
  assert (E : WOF.NEO_setPixel nr hue
              = replicate (3 * Z.to_nat nr) 0 ++ WOF.NEO_writeHue hue
                ++ replicate (3 * (15 - Z.to_nat nr)) 0).
  { unfold WOF.NEO_setPixel, for_upto.
    rewrite (foldl_emit (fun i => if decide (Z.of_nat i = nr)
                                  then WOF.NEO_writeHue hue
                                  else NEO_writeColor 0 0 0)).
    cbn [app].
    replace 16%nat with (Z.to_nat nr + Datatypes.S (15 - Z.to_nat nr))%nat at 1 by lia.
    rewrite seq_app, map_app, concat_app. cbn [seq map concat Nat.add].
    destruct (decide (Z.of_nat (Z.to_nat nr) = nr)) as [_|Hne]; [|lia].
    rewrite !concat_dark.
    - rewrite !length_seq. reflexivity.
    - intros i Hi. apply in_seq in Hi.
      destruct (decide (Z.of_nat i = nr)); [lia|reflexivity].
    - intros i Hi. apply in_seq in Hi.
      destruct (decide (Z.of_nat i = nr)); [lia|reflexivity]. }
  split; [exact E|].
  rewrite E, !length_app, !length_replicate, writeHue_length by lia.
  destruct (decide (hue < 192)); lia.
Qed.

Lemma setPixel_lights_one_pixel_witness :
  length (WOF.NEO_setPixel 5 100) = 48%nat.
Proof.
  destruct (setPixel_lights_one_pixel 5 100 ltac:(lia) ltac:(lia)) as [_ H].
  exact H.
Defined.

(** X2.  Every hue of the wheel is sent as three bytes between 0 and 252
    that add up to 252, at least one of which is zero: the total intensity is
    the same all round the wheel and never more than two channels are lit. *)
Theorem writeHue_constant_intensity (hue : Z) :
  0 <= hue < 192 ->
  channel_sum (WOF.NEO_writeHue hue) = 252 /\
  (1 <= zero_channels (WOF.NEO_writeHue hue))%nat /\
  Forall (fun x => 0 <= x <= 252) (WOF.NEO_writeHue hue).
Proof.
  intros H.
  pose proof (all_from_spec 192
    (fun h => (channel_sum (WOF.NEO_writeHue h) =? 252)
              && (1 <=? zero_channels (WOF.NEO_writeHue h))%nat
              && forallb (fun x => (0 <=? x) && (x <=? 252)) (WOF.NEO_writeHue h))
    0 ltac:(vm_compute; reflexivity) hue ltac:(lia)) as C.
  cbv beta in C. apply andb_true_iff in C as [C C3].
  apply andb_true_iff in C as [C1 C2].
  split; [apply Z.eqb_eq, C1|]. split; [apply Nat.leb_le, C2|].
  apply Forall_forall. intros x Hx.
  rewrite forallb_forall in C3. specialize (C3 x).
  rewrite <- list_elem_of_In in C3. specialize (C3 Hx).
  apply andb_true_iff in C3 as [L U]. apply Z.leb_le in L, U. lia.
Qed.

Lemma writeHue_constant_intensity_witness :
  channel_sum (WOF.NEO_writeHue 77) = 252.
Proof.
  destruct (writeHue_constant_intensity 77 ltac:(lia)) as [H _]. exact H.
Defined.

(** X3.  The wheel is smooth and closed: from any hue to the next one,
    also from 191 back to 0, no channel byte moves by more than 4. *)
Theorem writeHue_neighbours_are_close (hue : Z) (i : nat) :
  0 <= hue < 192 ->
  Z.abs (rd (WOF.NEO_writeHue (hue_succ hue)) i - rd (WOF.NEO_writeHue hue) i) <= 4.
Proof.
  intros H.
  pose proof (all_from_spec 192
    (fun h => forallb
                (fun i => Z.abs (rd (WOF.NEO_writeHue (hue_succ h)) i
                                 - rd (WOF.NEO_writeHue h) i) <=? 4)
                [0; 1; 2]%nat)
    0 ltac:(vm_compute; reflexivity) hue ltac:(lia)) as C.
  cbv beta in C. rewrite forallb_forall in C.
  destruct (decide (i < 3)%nat) as [Hi|Hi].
  - apply Z.leb_le, C.
    destruct i as [|[|[|i]]]; [left|right; left|right; right; left|lia]; reflexivity.
  - assert (Hlen : forall h, 0 <= h < 192 -> rd (WOF.NEO_writeHue h) i = 0).
    { intros h Hh. unfold rd. rewrite lookup_ge_None_2; [reflexivity|].
      rewrite writeHue_length by lia. destruct (decide (h < 192)); lia. }
    rewrite !Hlen; [simpl; lia|exact H|].
    unfold hue_succ. apply Z.mod_pos_bound. lia.
Qed.

Lemma writeHue_neighbours_are_close_witness :
  Z.abs (rd (WOF.NEO_writeHue (hue_succ 191)) 1 - rd (WOF.NEO_writeHue 191) 1) <= 4.
Proof. apply (writeHue_neighbours_are_close 191 1). lia. Defined.

(** ** Brightness and the gamma table *)

(** X4.  A larger ramp value or a higher brightness never gives a smaller
    channel byte, and every channel byte [NEO_show] computes is between 0
    and 255. *)
Theorem brighter_is_never_dimmer (v v' b b' : Z) :
  0 <= v <= v' -> v' <= 63 -> 0 <= b <= b' -> b' <= 6 ->
  0 <= Bling.show_col v b /\
  Bling.show_col v b <= Bling.show_col v' b' /\
  Bling.show_col v' b' <= 255.
Proof.
  intros Hv Hv' Hb Hb'.
  pose proof (all_from_spec 64
    (fun v => all_from 64 0 (fun v' => all_from 7 0 (fun b => all_from 7 0 (fun b' =>
       implb ((v <=? v') && (b <=? b'))
             ((0 <=? Bling.show_col v b)
              && (Bling.show_col v b <=? Bling.show_col v' b')
              && (Bling.show_col v' b' <=? 255))))))
    0 ltac:(vm_compute; reflexivity) v ltac:(lia)) as C.
  cbv beta in C.
  pose proof (all_from_spec _ _ _ C v' ltac:(lia)) as C1. cbv beta in C1.
  pose proof (all_from_spec _ _ _ C1 b ltac:(lia)) as C2. cbv beta in C2.
  pose proof (all_from_spec _ _ _ C2 b' ltac:(lia)) as C3. cbv beta in C3.
  replace (v <=? v') with true in C3 by (symmetry; apply Z.leb_le; lia).
  replace (b <=? b') with true in C3 by (symmetry; apply Z.leb_le; lia).
  cbn [andb implb] in C3.
  apply andb_true_iff in C3 as [C3 U]. apply andb_true_iff in C3 as [L M].
  apply Z.leb_le in L, M, U. lia.
Qed.

Lemma brighter_is_never_dimmer_witness :
  Bling.show_col 20 3 <= Bling.show_col 40 5.
Proof.
  destruct (brighter_is_never_dimmer 20 40 3 5
              ltac:(lia) ltac:(lia) ltac:(lia) ltac:(lia)) as (_ & H & _).
  exact H.
Defined.

(** ** Buffer operations *)

Lemma show_pixel_dark (hue : Z) :
  0 <= hue < 192 -> Bling.NEO_show_pixel hue 0 = [0; 0; 0].
Proof.
  intros H.
  pose proof (all_from_spec 192
    (fun h => match Bling.NEO_show_pixel h 0 with
              | [0; 0; 0] => true
              | _ => false
              end)
    0 ltac:(vm_compute; reflexivity) hue ltac:(lia)) as C.
  cbv beta in C.
  destruct (Bling.NEO_show_pixel hue 0) as [|[] [|[] [|[] []]]]; try discriminate C.
  reflexivity.
Qed.

Lemma map_const_replicate (c : Z) (l : list Z) :
  map (fun _ => c) l = replicate (length l) c.
Proof. induction l as [|x l IH]; simpl; [reflexivity|]. rewrite IH. reflexivity. Qed.

Lemma rd_replicate (n i : nat) (c : Z) : (i < n)%nat -> rd (replicate n c) i = c.
Proof.
  intros H. unfold rd. rewrite lookup_replicate_2 by exact H. reflexivity.
Qed.

Lemma NEO_clear_replicate (b : Bling.buffer) :
  length (Bling.NEO_bright b) = 16%nat ->
  Bling.NEO_clear b = Bling.Buffer (Bling.NEO_hue b) (replicate 16 0).
Proof.
  intros Hlen. unfold Bling.NEO_clear, for_upto.
  rewrite (foldl_bright (fun i l => <[i := 0]> l)). f_equal.
  rewrite <- Hlen at 1.
  pose proof (for_upto_pointwise (fun _ => 0) (Bling.NEO_bright b)) as E.
  unfold for_upto in E. rewrite E, map_const_replicate, Hlen. reflexivity.
Qed.

(** X5.  [NEO_clear] sets all sixteen brightness values to 0 and keeps the
    hues; a cleared buffer whose hues are on the wheel is shown as 48 zero
    bytes, whatever those hues are. *)
Theorem clear_blanks_the_frame (b : Bling.buffer) :
  length (Bling.NEO_bright b) = 16%nat ->
  (forall j, (j < 16)%nat -> 0 <= rd (Bling.NEO_hue b) j < 192) ->
  Bling.NEO_clear b = Bling.Buffer (Bling.NEO_hue b) (replicate 16 0) /\
  Bling.NEO_show (Bling.NEO_clear b) = replicate 48 0.
Proof.
  intros Hlen Hh. split; [apply NEO_clear_replicate, Hlen|].
  rewrite NEO_clear_replicate, NEO_show_pixels by exact Hlen.
  rewrite concat_dark; [reflexivity|].
  intros j Hj. apply in_seq in Hj. unfold pixel_bytes. cbn [Bling.NEO_hue Bling.NEO_bright].
  rewrite rd_replicate by lia. apply show_pixel_dark, Hh. lia.
Qed.

Lemma clear_blanks_the_frame_witness :
  Bling.NEO_show
    (Bling.NEO_clear (Bling.Buffer (replicate 16 100) (replicate 16 6)))
  = replicate 48 0.
Proof.
  assert (Hh : forall j, (j < 16)%nat -> 0 <= rd (replicate 16 100) j < 192).
  { intros j Hj. rewrite rd_replicate by exact Hj. lia. }
  destruct (clear_blanks_the_frame
              (Bling.Buffer (replicate 16 100) (replicate 16 6)) eq_refl Hh)
    as [_ H].
  exact H.
Defined.

(** X6.  [NEO_set] writes the hue and full brightness 6 at the given cell,
    whatever the brightness was, and leaves every other cell and the array
    lengths alone. *)
Theorem set_writes_one_cell (number hue : Z) (b : Bling.buffer) (j : nat) :
  0 <= number < 16 ->
  length (Bling.NEO_hue b) = 16%nat -> length (Bling.NEO_bright b) = 16%nat ->
  rd (Bling.NEO_hue (Bling.NEO_set number hue b)) (Z.to_nat number) = hue /\
  rd (Bling.NEO_bright (Bling.NEO_set number hue b)) (Z.to_nat number) = 6 /\
  (j <> Z.to_nat number ->
   rd (Bling.NEO_hue (Bling.NEO_set number hue b)) j = rd (Bling.NEO_hue b) j /\
   rd (Bling.NEO_bright (Bling.NEO_set number hue b)) j = rd (Bling.NEO_bright b) j) /\
  length (Bling.NEO_hue (Bling.NEO_set number hue b)) = 16%nat /\
  length (Bling.NEO_bright (Bling.NEO_set number hue b)) = 16%nat.
Proof.
  intros Hn Hlh Hlb. unfold Bling.NEO_set, rd. cbn [Bling.NEO_hue Bling.NEO_bright].
  rewrite !list_lookup_insert_eq by lia.
  split; [reflexivity|]. split; [reflexivity|].
  split; [|rewrite !length_insert; split; assumption].
  intros Hne. rewrite !list_lookup_insert_ne by lia. split; reflexivity.
Qed.

Lemma set_writes_one_cell_witness :
  rd (Bling.NEO_bright
        (Bling.NEO_set 3 50 (Bling.Buffer (replicate 16 0) (replicate 16 2)))) 3 = 6.
Proof.
  destruct (set_writes_one_cell 3 50
              (Bling.Buffer (replicate 16 0) (replicate 16 2)) 4
              ltac:(lia) eq_refl eq_refl) as (_ & H & _).
  exact H.
Defined.

Lemma NEO_fill_replicate (hue : Z) (b : Bling.buffer) :
  length (Bling.NEO_hue b) = 16%nat ->
  Bling.NEO_fill hue b = Bling.Buffer (replicate 16 hue) (Bling.NEO_bright b).
Proof.
  intros Hlen. unfold Bling.NEO_fill, for_upto.
  pose proof (foldl_seq_ind
    (fun i b' => Bling.NEO_bright b' = Bling.NEO_bright b /\
                 Bling.NEO_hue b' = replicate i hue ++ drop i (Bling.NEO_hue b))
    (fun i b' => Bling.Buffer (<[i := hue]> (Bling.NEO_hue b')) (Bling.NEO_bright b'))
    16 0 b) as H.
  destruct H as [Hb Hh].
  - split; [reflexivity|]. rewrite drop_0. reflexivity.
  - intros i b' Hi [Eb Eh]. cbn [Bling.NEO_hue Bling.NEO_bright].
    split; [exact Eb|]. rewrite Eh.
    rewrite insert_app_r_alt by (rewrite length_replicate; lia).
    rewrite length_replicate, Nat.sub_diag.
    destruct (lookup_lt_is_Some_2 (Bling.NEO_hue b) i ltac:(lia)) as [x Hx].
    rewrite (drop_S _ x i Hx). cbn [insert list_insert].
    rewrite replicate_S_end, <- app_assoc. reflexivity.
  - cbn [Nat.add] in Hb, Hh.
    destruct (foldl _ b (seq 0 16)) as [hs bs]. cbn [Bling.NEO_hue Bling.NEO_bright] in *.
    subst bs. rewrite Hh, drop_ge by lia. rewrite app_nil_r. reflexivity.
Qed.

(** X7.  [NEO_fill] makes all sixteen hues equal to its argument and does
    not touch the brightness array, so a fill followed by a second fill is
    the second fill alone. *)
Theorem fill_overwrites_every_hue (hue hue' : Z) (b : Bling.buffer) :
  length (Bling.NEO_hue b) = 16%nat ->
  Bling.NEO_fill hue b = Bling.Buffer (replicate 16 hue) (Bling.NEO_bright b) /\
  Bling.NEO_fill hue' (Bling.NEO_fill hue b) = Bling.NEO_fill hue' b.
Proof.
  intros Hlen. split; [apply NEO_fill_replicate, Hlen|].
  rewrite (NEO_fill_replicate hue b Hlen).
  rewrite !NEO_fill_replicate by (try exact Hlen; reflexivity). reflexivity.
Qed.

Lemma fill_overwrites_every_hue_witness :
  Bling.NEO_fill 42 (Bling.Buffer (replicate 16 0) (replicate 16 3))
  = Bling.Buffer (replicate 16 42) (replicate 16 3).
Proof.
  destruct (fill_overwrites_every_hue 42 7
              (Bling.Buffer (replicate 16 0) (replicate 16 3)) eq_refl) as [H _].
  exact H.
Defined.

(** ** Fading there and back *)

Lemma map_fixes (f : Z -> Z) (P : Z -> Prop) (l : list Z) :
  (forall x, P x -> f x = x) -> Forall P l -> map f l = l.
Proof.
  intros Hf H. induction H as [|x l Hx _ IH]; simpl; [reflexivity|].
  rewrite Hf, IH by exact Hx. reflexivity.
Qed.

Lemma Forall_map_range (f : Z -> Z) (P Q : Z -> Prop) (l : list Z) :
  (forall x, P x -> Q (f x)) -> Forall P l -> Forall Q (map f l).
Proof.
  intros Hf H. induction H as [|x l Hx _ IH]; simpl; constructor; auto.
Qed.

(** X8.  On a buffer with no cell at full brightness a fade in followed by a
    fade out gives back the buffer; with no dark cell a fade out followed by
    a fade in does.  Neither fade takes a brightness out of 0..6. *)
Theorem fades_undo_each_other (b : Bling.buffer) :
  length (Bling.NEO_bright b) = 16%nat ->
  (Forall (fun x => 0 <= x <= 5) (Bling.NEO_bright b) ->
   Bling.NEO_fadeOut (Bling.NEO_fadeIn b) = b) /\
  (Forall (fun x => 1 <= x <= 6) (Bling.NEO_bright b) ->
   Bling.NEO_fadeIn (Bling.NEO_fadeOut b) = b) /\
  (Forall (fun x => 0 <= x <= 6) (Bling.NEO_bright b) ->
   Forall (fun x => 0 <= x <= 6) (Bling.NEO_bright (Bling.NEO_fadeIn b)) /\
   Forall (fun x => 0 <= x <= 6) (Bling.NEO_bright (Bling.NEO_fadeOut b))).
Proof.
  intros Hlen. destruct b as [hs bs]. cbn [Bling.NEO_bright] in *.
  assert (Hin : Bling.NEO_fadeIn (Bling.Buffer hs bs)
                = Bling.Buffer hs (map fade_in_step bs))
    by (apply NEO_fadeIn_map, Hlen).
  assert (Hout : Bling.NEO_fadeOut (Bling.Buffer hs bs)
                 = Bling.Buffer hs (map fade_out_step bs))
    by (apply NEO_fadeOut_map, Hlen).
  split; [|split].
  - intros H. rewrite Hin, NEO_fadeOut_map by (cbn; rewrite length_map; exact Hlen).
    cbn [Bling.NEO_hue Bling.NEO_bright]. f_equal. rewrite map_map.
    apply (map_fixes _ (fun x => 0 <= x <= 5)); [|exact H].
    intros x Hx. unfold fade_in_step, fade_out_step, u8.
    repeat case_decide; Z.div_mod_to_equations; lia.
  - intros H. rewrite Hout, NEO_fadeIn_map by (cbn; rewrite length_map; exact Hlen).
    cbn [Bling.NEO_hue Bling.NEO_bright]. f_equal. rewrite map_map.
    apply (map_fixes _ (fun x => 1 <= x <= 6)); [|exact H].
    intros x Hx. unfold fade_in_step, fade_out_step, u8.
    repeat case_decide; Z.div_mod_to_equations; lia.
  - intros H. rewrite Hin, Hout. cbn [Bling.NEO_bright].
    split; apply (Forall_map_range _ (fun x => 0 <= x <= 6)); try exact H;
      intros x Hx; unfold fade_in_step, fade_out_step, u8;
      repeat case_decide; Z.div_mod_to_equations; lia.
Qed.

Lemma fades_undo_each_other_witness :
  Bling.NEO_fadeOut (Bling.NEO_fadeIn (Bling.Buffer (replicate 16 9) (replicate 16 5)))
  = Bling.Buffer (replicate 16 9) (replicate 16 5).
Proof.
  destruct (fades_undo_each_other (Bling.Buffer (replicate 16 9) (replicate 16 5))
              eq_refl) as [H _].
  apply H. vm_compute. repeat constructor; congruence.
Defined.

(** ** More on the ambient state machine *)

Lemma locals_one_period (c h1 h2 p1 p2 : Z) (n : nat) :
  (1 <= n)%nat ->
  Nat.iter (n + Bling.cycle_length) locals_step (Locals 0 c h1 h2 p1 p2)
  = Nat.iter n locals_step (Locals 0 c h1 h2 p1 p2).
Proof.
  intros Hn. destruct n as [|n]; [lia|].
  transitivity (Nat.iter n locals_step
                  (Nat.iter (Datatypes.S Bling.cycle_length) locals_step
                     (Locals 0 c h1 h2 p1 p2))).
  { rewrite <- Nat.iter_add. f_equal. lia. }
  transitivity (Nat.iter n locals_step
                  (Nat.iter 1 locals_step (Locals 0 c h1 h2 p1 p2))).
  { apply f_equal. vm_compute. reflexivity. }
  rewrite <- Nat.iter_add. f_equal. lia.
Qed.

Lemma locals_period (c h1 h2 p1 p2 : Z) (n q : nat) :
  (1 <= n)%nat ->
  Nat.iter (n + q * Bling.cycle_length) locals_step (Locals 0 c h1 h2 p1 p2)
  = Nat.iter n locals_step (Locals 0 c h1 h2 p1 p2).
Proof.
  intros Hn. induction q as [|q IH].
  - f_equal. lia.
  - replace (n + Datatypes.S q * Bling.cycle_length)%nat
      with ((n + q * Bling.cycle_length) + Bling.cycle_length)%nat by lia.
    rewrite locals_one_period by lia. exact IH.
Qed.

(** X9.  From the first tick on the six locals repeat with period 383: at
    any two ticks that lie a whole number of passes apart the state, the
    counter, both hue parameters and both pointers are the same. *)
Theorem locals_repeat_every_pass
    (o : Bling.arg_order) (m : Bling.machine) (n q : nat) :
  Bling.state m = 0 -> (1 <= n)%nat ->
  locals_of (Bling.ticks o (n + q * Bling.cycle_length) m)
  = locals_of (Bling.ticks o n m).
Proof.
  intros H0 Hn. rewrite !locals_simulation_iter.
  destruct m as [b r s c h1 h2 p1 p2]. cbn [Bling.state] in H0. subst s.
  change (locals_of (Bling.Machine b r 0 c h1 h2 p1 p2)) with (Locals 0 c h1 h2 p1 p2).
  apply locals_period, Hn.
Qed.

Lemma locals_repeat_every_pass_witness :
  locals_of (Bling.ticks Bling.LeftFirst (200 + 2 * Bling.cycle_length)
               (Bling.power_on 9 8 7 6 5))
  = locals_of (Bling.ticks Bling.LeftFirst 200 (Bling.power_on 9 8 7 6 5)).
Proof.
  apply (locals_repeat_every_pass Bling.LeftFirst (Bling.power_on 9 8 7 6 5) 200 2);
    [reflexivity | lia].
Defined.

Lemma opposite_step (l : locals) : opposite l -> opposite (locals_step l).
Proof.
  destruct l as [s c h1 h2 p1 p2]. intros [Hs Hp1 Hp2 Hh].
  cbn [l_state l_ptr1 l_ptr2 l_hue1 l_hue2] in *.
  assert (s = 0 \/ s = 1 \/ s = 2 \/ s = 3 \/ s = 4 \/ s = 5 \/ s = 6 \/ s = 7)
    as C by lia.
  repeat destruct C as [C | C]; subst s;
    unfold locals_step, locals_animate, locals_advance;
    cbn [l_state l_counter l_ptr1 l_ptr2 l_hue1 l_hue2];
    rewrite ?land15;
    match goal with
    | |- context [decide (u8 (?c - 1) = 0)] => destruct (decide (u8 (c - 1) = 0))
    end;
    (constructor; cbn [l_state l_counter l_ptr1 l_ptr2 l_hue1 l_hue2];
     unfold Bling.wrap192, u8 in *; repeat case_decide;
     try (intros; exfalso; Z.div_mod_to_equations; lia);
     Z.div_mod_to_equations; lia).
Qed.

Lemma opposite_iter (n : nat) (c h1 h2 p1 p2 : Z) :
  opposite (Nat.iter (Datatypes.S n) locals_step (Locals 0 c h1 h2 p1 p2)).
Proof.
  induction n as [|n IH].
  - constructor; vm_compute; intuition congruence.
  - apply (opposite_step _ IH).
Qed.

(** X10.  After every tick the second pointer is eight cells past the first,
    so the two comets of state 1 are drawn at opposite cells of the ring;
    while the state is 1 their hues are half a wheel (96) apart. *)
Theorem comets_stay_opposite (o : Bling.arg_order) (c h1 h2 p1 p2 : Z) (n : nat) :
  (1 <= n)%nat ->
  0 <= Bling.ptr1 (Bling.ticks o n (Bling.power_on c h1 h2 p1 p2)) < 16 /\
  Bling.ptr2 (Bling.ticks o n (Bling.power_on c h1 h2 p1 p2))
  = (Bling.ptr1 (Bling.ticks o n (Bling.power_on c h1 h2 p1 p2)) + 8) mod 16 /\
  (Bling.state (Bling.ticks o n (Bling.power_on c h1 h2 p1 p2)) = 1 ->
   Bling.hue2 (Bling.ticks o n (Bling.power_on c h1 h2 p1 p2))
   = (Bling.hue1 (Bling.ticks o n (Bling.power_on c h1 h2 p1 p2)) + 96) mod 192).
Proof.
  intros Hn. destruct n as [|n]; [lia|].
  pose proof (opposite_iter n c h1 h2 p1 p2) as H.
  change (Locals 0 c h1 h2 p1 p2) with (locals_of (Bling.power_on c h1 h2 p1 p2)) in H.
  rewrite <- (locals_simulation_iter o) in H.
  destruct H as [_ Hp1 Hp2 Hh]. cbn [locals_of l_state l_ptr1 l_ptr2 l_hue1 l_hue2] in *.
  split; [exact Hp1|]. split; [exact Hp2|].
  intros Hs. apply Hh, Hs.
Qed.

Lemma comets_stay_opposite_witness :
  Bling.ptr2 (Bling.ticks Bling.RightFirst 40 (Bling.power_on 1 2 3 4 5))
  = (Bling.ptr1 (Bling.ticks Bling.RightFirst 40 (Bling.power_on 1 2 3 4 5)) + 8) mod 16.
Proof.
  destruct (comets_stay_opposite Bling.RightFirst 1 2 3 4 5 40 ltac:(lia))
    as (_ & H & _).
  exact H.
Defined.

(** ** Array and table bounds in the ambient sketch *)

Lemma level_rd (l : list Z) (i : nat) :
  Forall (fun x => 0 <= x <= 6) l -> 0 <= rd l i <= 6.
Proof.
  intros H. unfold rd. destruct (l !! i) as [x|] eqn:E; simpl; [|lia].
  exact (Forall_lookup_1 _ _ _ _ H E).
Qed.

Lemma in_bounds_set (n h : Z) (b : Bling.buffer) :
  in_bounds b -> in_bounds (Bling.NEO_set n h b).
Proof.
  intros [Hh Hb Hl]. constructor; cbn [Bling.NEO_set Bling.NEO_hue Bling.NEO_bright].
  - rewrite length_insert. exact Hh.
  - rewrite length_insert. exact Hb.
  - apply Forall_insert; [exact Hl|lia].
Qed.

Lemma in_bounds_hue (i : nat) (h : Z) (b : Bling.buffer) :
  in_bounds b ->
  in_bounds (Bling.Buffer (<[i := h]> (Bling.NEO_hue b)) (Bling.NEO_bright b)).
Proof.
  intros [Hh Hb Hl]. constructor; cbn [Bling.NEO_hue Bling.NEO_bright];
    [rewrite length_insert|..]; assumption.
Qed.

Lemma in_bounds_fadeOut (b : Bling.buffer) :
  in_bounds b -> in_bounds (Bling.NEO_fadeOut b).
Proof.
  intros H. unfold Bling.NEO_fadeOut.
  apply (for_upto_ind (fun _ b' => in_bounds b')); [exact H|].
  intros i b' _ [Hh Hb Hl]. destruct (decide _) as [Hnz|]; [|constructor; assumption].
  constructor; cbn [Bling.NEO_hue Bling.NEO_bright];
    [exact Hh|rewrite length_insert; exact Hb|].
  apply Forall_insert; [exact Hl|].
  pose proof (level_rd _ i Hl). unfold u8. Z.div_mod_to_equations. lia.
Qed.

Lemma in_bounds_fill (h : Z) (b : Bling.buffer) :
  in_bounds b -> in_bounds (Bling.NEO_fill h b).
Proof.
  intros H. unfold Bling.NEO_fill.
  apply (for_upto_ind (fun _ b' => in_bounds b')); [exact H|].
  intros i b' _ Hb'. apply in_bounds_hue, Hb'.
Qed.

Lemma in_bounds_rotate_step (i j : nat) (b : Bling.buffer) :
  in_bounds b ->
  in_bounds (Bling.Buffer (<[i := rd (Bling.NEO_hue b) j]> (Bling.NEO_hue b))
                          (<[i := rd (Bling.NEO_bright b) j]> (Bling.NEO_bright b))).
Proof.
  intros [Hh Hb Hl]. constructor; cbn [Bling.NEO_hue Bling.NEO_bright].
  - rewrite length_insert. exact Hh.
  - rewrite length_insert. exact Hb.
  - apply Forall_insert; [exact Hl|apply level_rd, Hl].
Qed.

Lemma in_bounds_cw (b : Bling.buffer) : in_bounds b -> in_bounds (Bling.NEO_cw b).
Proof.
  intros H. unfold Bling.NEO_cw.
  pose proof (for_downto_inv in_bounds 15
                (fun i b =>
                   let br := <[i := rd (Bling.NEO_bright b) (i - 1)]> (Bling.NEO_bright b) in
                   Bling.Buffer (<[i := rd (Bling.NEO_hue b) (i - 1)]> (Bling.NEO_hue b)) br)
                (fun i b' Hb' => in_bounds_rotate_step i (i - 1) b' Hb') b H)
    as [Hh Hb Hl].
  destruct H as [_ _ Hl0].
  constructor; cbn [Bling.NEO_hue Bling.NEO_bright].
  - rewrite length_insert. exact Hh.
  - rewrite length_insert. exact Hb.
  - apply Forall_insert; [exact Hl|apply level_rd, Hl0].
Qed.

Lemma in_bounds_ccw (b : Bling.buffer) : in_bounds b -> in_bounds (Bling.NEO_ccw b).
Proof.
  intros H. unfold Bling.NEO_ccw.
  pose proof (for_upto_ind (fun _ b' => in_bounds b') 15
                (fun i b =>
                   let br := <[i := rd (Bling.NEO_bright b) (i + 1)]> (Bling.NEO_bright b) in
                   Bling.Buffer (<[i := rd (Bling.NEO_hue b) (i + 1)]> (Bling.NEO_hue b)) br)
                b H
                (fun i b' _ Hb' => in_bounds_rotate_step i (i + 1) b' Hb'))
    as [Hh Hb Hl].
  destruct H as [_ _ Hl0].
  constructor; cbn [Bling.NEO_hue Bling.NEO_bright].
  - rewrite length_insert. exact Hh.
  - rewrite length_insert. exact Hb.
  - apply Forall_insert; [exact Hl|apply level_rd, Hl0].
Qed.

Lemma in_bounds_set_random (o : Bling.arg_order) (br : Bling.buffer * Z) :
  in_bounds (fst br) -> in_bounds (fst (Bling.set_random o br)).
Proof.
  destruct br as [b r]. intros H. destruct o; cbn; apply in_bounds_set; exact H.
Qed.

Ltac loop_in_bounds :=
  match goal with
  | |- context [for_upto 16 ?body ?init] =>
      let L := fresh "L" in
      assert (L : in_bounds (fst (for_upto 16 body init)));
      [ apply (for_upto_ind (fun _ (br : Bling.buffer * Z) => in_bounds (fst br)));
        [ assumption
        | let i := fresh "i" in let b' := fresh "b" in let x := fresh "x" in
          let Hb := fresh "Hb" in
          intros i [b' x] _ Hb; cbn [fst snd Bling.prng] in *;
          first [ apply in_bounds_set, Hb | apply in_bounds_hue, Hb ] ]
      | destruct (for_upto 16 body init); exact L ]
  end.

(** The [switch] keeps the buffer in bounds, whatever [state] holds. *)
Lemma in_bounds_animate (o : Bling.arg_order) (m : Bling.machine) :
  in_bounds (Bling.buf m) -> in_bounds (Bling.buf (fst (Bling.animate o m))).
Proof.
  destruct m as [b r s c h1 h2 p1 p2]. cbn [Bling.buf]. intros H.
  unfold Bling.animate. machine_fields.
  destruct s as [|p|p]; [exact H| |exact H].
  do 3 (try destruct p as [p|p|]); machine_fields; try exact H.
  - (* 7 *) apply in_bounds_fill, H.
  - (* 5 *) loop_in_bounds.
  - (* 3 *) loop_in_bounds.
  - (* 6 *) apply in_bounds_cw, H.
  - (* 4 *) loop_in_bounds.
  - (* 2 *)
    destruct (Bling.prng 4 r) as [i r1].
    pose proof (for_downto_inv (fun br => in_bounds (fst br)) (Z.to_nat (u8 i))
                  (fun _ => Bling.set_random o)
                  (fun _ br Hbr => in_bounds_set_random o br Hbr)
                  (Bling.NEO_fadeOut b, r1) (in_bounds_fadeOut b H)) as L.
    destruct (for_downto _ _ _). exact L.
  - (* 1 *) apply in_bounds_set, in_bounds_set, in_bounds_fadeOut, H.
Qed.

Lemma in_bounds_tick (o : Bling.arg_order) (m : Bling.machine) :
  in_bounds (Bling.buf m) -> in_bounds (Bling.buf (Bling.tick o m)).
Proof.
  intros H. apply (in_bounds_animate o) in H. unfold Bling.tick, Bling.advance.
  destruct (decide _); exact H.
Qed.

Lemma in_bounds_ticks (o : Bling.arg_order) (n : nat) (m : Bling.machine) :
  in_bounds (Bling.buf m) -> in_bounds (Bling.buf (Bling.ticks o n m)).
Proof.
  intros H. unfold Bling.ticks. induction n as [|n IH]; [exact H|].
  apply in_bounds_tick, IH.
Qed.

Lemma show_index_in_table (v b : Z) :
  0 <= v <= 63 -> 0 <= b <= 6 -> 0 <= Bling.show_index v b <= 63.
Proof.
  intros Hv Hb. unfold Bling.show_index. split.
  - apply Z.shiftr_nonneg. lia.
  - rewrite Z.shiftr_div_pow2 by lia.
    assert (0 < 2 ^ (6 - b)) by (apply Z.pow_pos_nonneg; lia).
    apply Z.le_trans with (v / 1); [|rewrite Z.div_1_r; lia].
    apply Z.div_le_compat_l; lia.
Qed.

(** X11.  At power-on and after any number of ticks both arrays still have
    16 cells and every brightness is a level in 0..6.  So for every pixel
    [NEO_show] shifts by an amount in 0..6 and reads the gamma table at an
    index in 0..63, inside the table, for both ramp values. *)
Theorem show_stays_inside_gamma_table
    (o : Bling.arg_order) (c h1 h2 p1 p2 : Z) (n i : nat) :
  (i < 16)%nat ->
  in_bounds (Bling.buf (Bling.ticks o n (Bling.power_on c h1 h2 p1 p2))) /\
  0 <= 6 - rd (Bling.NEO_bright
                 (Bling.buf (Bling.ticks o n (Bling.power_on c h1 h2 p1 p2)))) i <= 6 /\
  0 <= Bling.show_index
         (Bling.step_of
            (rd (Bling.NEO_hue
                   (Bling.buf (Bling.ticks o n (Bling.power_on c h1 h2 p1 p2)))) i))
         (rd (Bling.NEO_bright
                (Bling.buf (Bling.ticks o n (Bling.power_on c h1 h2 p1 p2)))) i)
    < Z.of_nat (length Bling.gamma) /\
  0 <= Bling.show_index
         (Bling.nstep_of
            (rd (Bling.NEO_hue
                   (Bling.buf (Bling.ticks o n (Bling.power_on c h1 h2 p1 p2)))) i))
         (rd (Bling.NEO_bright
                (Bling.buf (Bling.ticks o n (Bling.power_on c h1 h2 p1 p2)))) i)
    < Z.of_nat (length Bling.gamma).
Proof.
  intros Hi.
  assert (H : in_bounds (Bling.buf (Bling.ticks o n (Bling.power_on c h1 h2 p1 p2)))).
  { apply in_bounds_ticks. constructor; try reflexivity.
    vm_compute. repeat constructor; congruence. }
  split; [exact H|].
  destruct H as [_ _ Hl].
  set (b := Bling.buf (Bling.ticks o n (Bling.power_on c h1 h2 p1 p2))) in *.
  pose proof (level_rd _ i Hl) as Hb.
  split; [lia|].
  change (Z.of_nat (length Bling.gamma)) with 64.
  assert (Hs : forall h, 0 <= Bling.step_of h <= 63).
  { intros h. unfold Bling.step_of. rewrite land63.
    pose proof (Z.mod_pos_bound h 64 ltac:(lia)). lia. }
  split.
  - pose proof (show_index_in_table _ _ (Hs (rd (Bling.NEO_hue b) i)) Hb). lia.
  - assert (0 <= Bling.nstep_of (rd (Bling.NEO_hue b) i) <= 63) as Hn
      by (unfold Bling.nstep_of; specialize (Hs (rd (Bling.NEO_hue b) i)); lia).
    pose proof (show_index_in_table _ _ Hn Hb). lia.
Qed.

Lemma show_stays_inside_gamma_table_witness :
  0 <= 6 - rd (Bling.NEO_bright
                 (Bling.buf (Bling.ticks Bling.LeftFirst 90
                               (Bling.power_on 1 2 3 4 5)))) 7 <= 6.
Proof.
  destruct (show_stays_inside_gamma_table Bling.LeftFirst 1 2 3 4 5 90 7 ltac:(lia))
    as (_ & H & _).
  exact H.
Defined.

(** ** What a tick sends *)

Lemma frame_is_show (o : Bling.arg_order) (m : Bling.machine) :
  1 <= Bling.state m <= 7 ->
  Bling.tick_frame o m = Bling.NEO_show (Bling.buf (Bling.tick o m)).
Proof.
  destruct m as [b r s c h1 h2 p1 p2]. machine_fields. intros Hs.
  assert (Hadv : forall x, Bling.buf (Bling.advance x) = Bling.buf x).
  { intros x. unfold Bling.advance. destruct (decide _); reflexivity. }
  unfold Bling.tick_frame, Bling.tick. rewrite Hadv.
  unfold Bling.animate. machine_fields.
  assert (s = 1 \/ s = 2 \/ s = 3 \/ s = 4 \/ s = 5 \/ s = 6 \/ s = 7) as C by lia.
  repeat destruct C as [C | C]; subst s;
    try (destruct (Bling.prng 4 r) as [i r1]);
    repeat match goal with
           | |- context [let (_, _) := ?x in _] => destruct x
           end;
    cbn [fst snd Bling.buf]; reflexivity.
Qed.

(** X12.  A tick in state 0 sends nothing; from power-on every tick in any
    other state sends a complete frame of 16 x 3 = 48 bytes, so no pixel is
    ever dropped from a frame. *)
Theorem every_frame_is_complete (o : Bling.arg_order) (c h1 h2 p1 p2 : Z) (n : nat) :
  length (Bling.tick_frame o (Bling.ticks o n (Bling.power_on c h1 h2 p1 p2)))
  = if decide (Bling.state (Bling.ticks o n (Bling.power_on c h1 h2 p1 p2)) = 0)
    then 0%nat else 48%nat.
Proof.
  destruct (decide _) as [H0|Hne].
  - unfold Bling.tick_frame, Bling.animate. rewrite H0. reflexivity.
  - assert (Hn : (1 <= n)%nat) by (destruct n; [contradiction Hne; reflexivity|lia]).
    destruct (tidy_ticks o c h1 h2 p1 p2 n Hn) as [_ Hs _ _ _].
    rewrite frame_is_show by lia.
    apply full_frame_length. intros j _.
    destruct (tidy_ticks o c h1 h2 p1 p2 (Datatypes.S n) ltac:(lia)) as [Hh _ _ _ _].
    apply (on_wheel_rd _ j Hh).
Qed.

(** ** The rainbow of states 5 and 6 *)

Lemma state5_tick (o : Bling.arg_order) (m : Bling.machine) :
  Bling.state m = 5 ->
  length (Bling.NEO_hue (Bling.buf m)) = 16%nat ->
  length (Bling.NEO_bright (Bling.buf m)) = 16%nat ->
  Bling.buf (Bling.tick o m) = Bling.Buffer rainbow (replicate 16 6) /\
  Bling.hue1 (Bling.tick o m) = 192 /\
  Bling.state (Bling.tick o m) = 6 /\
  Bling.counter (Bling.tick o m) = 76.
Proof.
  destruct m as [[hs bs] r s c h1 h2 p1 p2]. machine_fields.
  cbn [Bling.NEO_hue Bling.NEO_bright]. intros -> Hh Hb.
  explode hs Hh. explode bs Hb.
  repeat split; vm_compute; reflexivity.
Qed.

(** X13.  Whatever the buffer held, one tick in state 5 leaves hue [12 i] at
    cell [i] with full brightness everywhere, [hue1] at 192 and the machine in
    state 6 with 76 ticks to go. *)
Theorem rainbow_fill (o : Bling.arg_order) (m : Bling.machine) (i : nat) :
  Bling.state m = 5 ->
  length (Bling.NEO_hue (Bling.buf m)) = 16%nat ->
  length (Bling.NEO_bright (Bling.buf m)) = 16%nat ->
  (i < 16)%nat ->
  rd (Bling.NEO_hue (Bling.buf (Bling.tick o m))) i = 12 * Z.of_nat i /\
  rd (Bling.NEO_bright (Bling.buf (Bling.tick o m))) i = 6 /\
  Bling.hue1 (Bling.tick o m) = 192 /\
  Bling.state (Bling.tick o m) = 6 /\
  Bling.counter (Bling.tick o m) = 76.
Proof.
  intros Hs Hh Hb Hi.
  destruct (state5_tick o m Hs Hh Hb) as (Ebuf & Erest).
  rewrite Ebuf. cbn [Bling.NEO_hue Bling.NEO_bright].
  split; [|split; [|exact Erest]].
  - do 16 (destruct i as [|i]; [reflexivity|]). lia.
  - apply rd_replicate, Hi.
Qed.

Lemma rainbow_fill_witness :
  rd (Bling.NEO_hue
        (Bling.buf (Bling.tick Bling.LeftFirst
                      (Bling.Machine (Bling.Buffer (replicate 16 77) (replicate 16 2))
                         Bling.seed 5 76 0 0 0 0)))) 7 = 12 * Z.of_nat 7.
Proof.
  destruct (rainbow_fill Bling.LeftFirst
              (Bling.Machine (Bling.Buffer (replicate 16 77) (replicate 16 2))
                 Bling.seed 5 76 0 0 0 0) 7 eq_refl eq_refl eq_refl ltac:(lia))
    as [H _].
  exact H.
Defined.

Lemma NEO_cw_in_place (b : Bling.buffer) (i : nat) :
  length (Bling.NEO_hue b) = 16%nat -> length (Bling.NEO_bright b) = 16%nat ->
  (i < 16)%nat ->
  rd (Bling.NEO_hue (Bling.NEO_cw b)) ((i + 1) mod 16) = rd (Bling.NEO_hue b) i /\
  rd (Bling.NEO_bright (Bling.NEO_cw b)) ((i + 1) mod 16) = rd (Bling.NEO_bright b) i.
Proof.
  intros Hh Hb Hi. rewrite NEO_cw_lists by assumption.
  destruct b as [hs bs]. cbn [Bling.NEO_hue Bling.NEO_bright] in *.
  explode hs Hh. explode bs Hb.
  do 16 (destruct i as [|i]; [split; reflexivity|]). lia.
Qed.

Lemma NEO_cw_lengths (b : Bling.buffer) :
  length (Bling.NEO_hue b) = 16%nat -> length (Bling.NEO_bright b) = 16%nat ->
  length (Bling.NEO_hue (Bling.NEO_cw b)) = 16%nat /\
  length (Bling.NEO_bright (Bling.NEO_cw b)) = 16%nat.
Proof.
  intros Hh Hb. rewrite NEO_cw_lists by assumption.
  cbn [Bling.NEO_hue Bling.NEO_bright length].
  rewrite !length_take, Hh, Hb. split; reflexivity.
Qed.

Lemma iter_cw_in_place (b : Bling.buffer) (k i : nat) :
  length (Bling.NEO_hue b) = 16%nat -> length (Bling.NEO_bright b) = 16%nat ->
  (i < 16)%nat ->
  rd (Bling.NEO_hue (Nat.iter k Bling.NEO_cw b)) ((i + k) mod 16)
  = rd (Bling.NEO_hue b) i /\
  rd (Bling.NEO_bright (Nat.iter k Bling.NEO_cw b)) ((i + k) mod 16)
  = rd (Bling.NEO_bright b) i.
Proof.
  intros Hh Hb Hi.
  assert (Hlen : forall k, length (Bling.NEO_hue (Nat.iter k Bling.NEO_cw b)) = 16%nat /\
                           length (Bling.NEO_bright (Nat.iter k Bling.NEO_cw b)) = 16%nat).
  { intros j. induction j as [|j [IH1 IH2]]; [split; assumption|].
    apply NEO_cw_lengths; assumption. }
  induction k as [|k [IHh IHb]].
  - rewrite Nat.add_0_r, Nat.mod_small by lia. split; reflexivity.
  - destruct (Hlen k) as [L1 L2].
    assert (Hlt : ((i + k) mod 16 < 16)%nat) by (apply Nat.mod_upper_bound; lia).
    destruct (NEO_cw_in_place _ _ L1 L2 Hlt) as [Ch Cb].
    replace ((i + Datatypes.S k) mod 16)%nat with (((i + k) mod 16 + 1) mod 16)%nat.
    + rewrite Nat.iter_succ, Ch, Cb. split; assumption.
    + rewrite Nat.Div0.add_mod_idemp_l. f_equal. lia.
Qed.

(** X14.  [k] clockwise rotations move the hue and the brightness of cell
    [i] together to cell [(i + k) mod 16], for any number [k] of rotations. *)
Theorem rotations_add_up (b : Bling.buffer) (k i : nat) :
  length (Bling.NEO_hue b) = 16%nat -> length (Bling.NEO_bright b) = 16%nat ->
  (i < 16)%nat ->
  rd (Bling.NEO_hue (Nat.iter k Bling.NEO_cw b)) ((i + k) mod 16)
  = rd (Bling.NEO_hue b) i /\
  rd (Bling.NEO_bright (Nat.iter k Bling.NEO_cw b)) ((i + k) mod 16)
  = rd (Bling.NEO_bright b) i.
Proof. intros Hh Hb Hi. apply iter_cw_in_place; assumption. Qed.

Lemma rotations_add_up_witness :
  rd (Bling.NEO_hue (Nat.iter 5 Bling.NEO_cw (Bling.Buffer rainbow (replicate 16 6))))
     ((13 + 5) mod 16)
  = rd rainbow 13.
Proof.
  destruct (rotations_add_up (Bling.Buffer rainbow (replicate 16 6)) 5 13
              eq_refl eq_refl ltac:(lia)) as [H _].
  exact H.
Defined.

(** ** The period of the generator *)

Lemma returns_within_spec (n : nat) :
  forall x, returns_within n x = false ->
  forall k, (0 < k <= n)%nat -> Nat.iter k Bling.lfsr x <> Bling.seed.
Proof.
  induction n as [|n IH]; intros x H k Hk; [lia|].
  simpl in H. destruct (Bling.lfsr x =? Bling.seed) eqn:E; [discriminate H|].
  destruct k as [|k]; [lia|]. rewrite Nat.iter_succ_r.
  destruct k as [|k].
  - simpl. apply Z.eqb_neq, E.
  - apply IH; [exact H|lia].
Qed.

(** X15.  Started from the seed the generator state comes back to the seed
    after exactly 65535 calls of [prng] and not before: the state sequence
    has the full period of a 16 bit shift register. *)
Theorem lfsr_has_full_period (k : nat) :
  (0 < k < Z.to_nat 65535)%nat ->
  Nat.iter k Bling.lfsr Bling.seed <> Bling.seed /\
  Nat.iter (Z.to_nat 65535) Bling.lfsr Bling.seed = Bling.seed.
Proof.
  intros Hk. split.
  - apply (returns_within_spec (Z.to_nat 65534)); [vm_compute; reflexivity|lia].
  - vm_compute. reflexivity.
Qed.

Lemma lfsr_has_full_period_witness :
  Nat.iter 255 Bling.lfsr Bling.seed <> Bling.seed.
Proof.
  destruct (lfsr_has_full_period 255 ltac:(lia)) as [H _]. exact H.
Defined.

(** ** Bits on the wire *)

(** X16.  A byte goes out as exactly 8 bits, most significant first: bit [k]
    on the wire is bit [7 - k] of the byte, and reading the bits back in
    arrival order gives the byte. *)
Theorem sendByte_is_msb_first (byte : Z) (k : nat) :
  0 <= byte < 256 -> (k < 8)%nat ->
  length (NEO_sendByte_bits byte) = 8%nat /\
  NEO_sendByte_bits byte !! k = Some (Z.testbit byte (7 - Z.of_nat k)) /\
  bits_value (NEO_sendByte_bits byte) = byte.
Proof.
  intros Hb Hk.
  assert (C0 : all_from 256 0
    (fun b => (length (NEO_sendByte_bits b) =? 8)%nat
              && forallb (fun k : nat =>
                            match NEO_sendByte_bits b !! k with
                            | Some x => Bool.eqb x (Z.testbit b (7 - Z.of_nat k))
                            | None => false
                            end) (seq 0 8)
              && (bits_value (NEO_sendByte_bits b) =? b)) = true)
    by (vm_compute; reflexivity).
  pose proof (all_from_spec _ _ _ C0 byte ltac:(lia)) as C.
  cbv beta in C. apply andb_true_iff in C as [C C3].
  apply andb_true_iff in C as [C1 C2].
  split; [apply Nat.eqb_eq, C1|]. split; [|apply Z.eqb_eq, C3].
  rewrite forallb_forall in C2. specialize (C2 k).
  rewrite in_seq in C2. specialize (C2 ltac:(lia)).
  destruct (NEO_sendByte_bits byte !! k) as [x|]; [|discriminate C2].
  apply Bool.eqb_prop in C2. rewrite C2. reflexivity.
Qed.

Lemma sendByte_is_msb_first_witness :
  bits_value (NEO_sendByte_bits 0xA5) = 0xA5.
Proof.
  destruct (sendByte_is_msb_first 0xA5 0 ltac:(lia) ltac:(lia)) as (_ & _ & H).
  exact H.
Defined.

(** ** Where the wheel of fortune stops *)

Lemma iter_next_pair_closed (c : nat) (n h : Z) :
  0 <= n < 16 -> 0 <= h < 192 ->
  Nat.iter c next_pair (n, h) = ((n + Z.of_nat c) mod 16, (h + Z.of_nat c) mod 192).
Proof.
  intros Hn Hh. induction c as [|c IH].
  - simpl. rewrite !Z.add_0_r, !Z.mod_small by lia. reflexivity.
  - rewrite Nat.iter_succ, IH, next_pair_closed by (apply Z.mod_pos_bound; lia).
    rewrite !Z.add_mod_idemp_l by lia. f_equal; f_equal; lia.
Qed.

Lemma track_length (c : nat) : forall p, length (track c p) = c.
Proof. induction c as [|c IH]; intros p; simpl; [reflexivity|]. rewrite IH. reflexivity. Qed.

(** X17.  A button press with timer value [t] always completes; it shows
    [110 + t mod 16] pixels and stops with the wheel
    [(14 + t mod 16) mod 16] cells and [110 + t mod 16] hues further on.  So
    the low four timer bits alone decide where the wheel stops, and every one
    of the 16 cells [p] is the stopping cell for some timer value. *)
Theorem wheel_stops_by_timer (t p : Z) (w : WOF.wheel) :
  0 <= WOF.number w < 16 -> 0 <= WOF.hue w < 192 -> 0 <= p < 16 ->
  (exists w' shown,
     WOF.press 256 t w = Some (w', shown) /\
     length shown = (110 + Z.to_nat (t mod 16))%nat /\
     WOF.number w' = (WOF.number w + 14 + t mod 16) mod 16 /\
     WOF.hue w' = (WOF.hue w + 110 + t mod 16) mod 192 /\
     WOF.speed w' = 96) /\
  (exists t' w' shown,
     0 <= t' < 16 /\ WOF.press 256 t' w = Some (w', shown) /\ WOF.number w' = p).
Proof.
  intros Hn Hh Hp.
  assert (Hpress : forall t, exists w' shown,
     WOF.press 256 t w = Some (w', shown) /\
     length shown = (110 + Z.to_nat (t mod 16))%nat /\
     WOF.number w' = (WOF.number w + 14 + t mod 16) mod 16 /\
     WOF.hue w' = (WOF.hue w + 110 + t mod 16) mod 192 /\
     WOF.speed w' = 96).
  { intros t0. pose proof (Z.mod_pos_bound t0 16 ltac:(lia)) as Ht.
    pose proof (start_speed_range t0) as Hs.
    assert (Es : WOF.start_speed t0 = 16 + t0 mod 16).
    { unfold WOF.start_speed. rewrite land15, u8_small; lia. }
    pose proof (spin_runs (WOF.Wheel (WOF.number w) (WOF.start_speed t0) (WOF.hue w))
                  ltac:(cbn [WOF.speed]; lia)) as R.
    cbv zeta in R. cbn [WOF.speed WOF.number WOF.hue] in R.
    assert (Ec : (Z.to_nat (u8 (WOF.start_speed t0 - 1)) + 95)%nat
                 = (110 + Z.to_nat (t0 mod 16))%nat).
    { rewrite Es, u8_small by lia. lia. }
    rewrite Ec in R. rewrite iter_next_pair_closed in R by assumption.
    cbn [fst snd] in R.
    eexists _, _. split; [exact R|]. cbn [WOF.number WOF.hue WOF.speed].
    split; [apply track_length|].
    split; [|split; [|reflexivity]].
    - replace (Z.of_nat (110 + Z.to_nat (t0 mod 16))) with (110 + t0 mod 16) by lia.
      clear R. Z.div_mod_to_equations. lia.
    - f_equal. lia. }
  split; [apply Hpress|].
  exists ((p - WOF.number w - 14) mod 16).
  destruct (Hpress ((p - WOF.number w - 14) mod 16)) as (w' & shown & E & _ & En & _ & _).
  exists w', shown.
  split; [apply Z.mod_pos_bound; lia|]. split; [exact E|].
  rewrite En. clear E En. Z.div_mod_to_equations. lia.
Qed.

Lemma wheel_stops_by_timer_witness :
  exists w' shown,
    WOF.press 256 200 (WOF.Wheel 3 0 50) = Some (w', shown) /\
    length shown = (110 + Z.to_nat (200 mod 16))%nat /\
    WOF.number w' = (3 + 14 + 200 mod 16) mod 16 /\
    WOF.hue w' = (50 + 110 + 200 mod 16) mod 192 /\
    WOF.speed w' = 96.
Proof.
  destruct (wheel_stops_by_timer 200 9 (WOF.Wheel 3 0 50)
              ltac:(simpl; lia) ltac:(simpl; lia) ltac:(lia)) as [H _].
  exact H.
Defined.

(** ** How long a spin takes *)

Lemma delayms_counts (n : nat) :
  forall time, 0 <= time < 256 -> Z.to_nat time = n ->
    delayms 256 time = Some n.
Proof.
  assert (G : forall fuel time, 0 <= time < 256 -> Z.to_nat time = n ->
                (n < fuel)%nat -> delayms fuel time = Some n).
  { induction n as [|n IH]; intros fuel time Ht E Hf;
      (destruct fuel as [|fuel]; [lia|]); simpl.
    - destruct (decide (time = 0)); [reflexivity|lia].
    - destruct (decide (time = 0)); [lia|].
      rewrite (IH fuel (u8 (time - 1))); [reflexivity| | |lia];
        rewrite u8_small by lia; lia. }
  intros time Ht E. apply G; [exact Ht|exact E|lia].
Qed.

(** X18.  [delayms(time)] waits exactly [time] milliseconds and returns at
    once for 0.  A spin started with timer value [t] makes as many waits as it
    shows pixels; with [s = 16 + t mod 16] they add up to
    [s (s - 1) / 2 + 4560] milliseconds, between 4.68 and 5.025 seconds. *)
Theorem spin_takes_five_seconds (t time : Z) (w : WOF.wheel) :
  0 <= time < 256 ->
  delayms 256 time = Some (Z.to_nat time) /\
  exists ds ms w' shown,
    spin_delays 256 (WOF.start_speed t) = Some ds /\
    WOF.press 256 t w = Some (w', shown) /\
    length ds = length shown /\
    total_ms 256 ds = Some ms /\
    2 * Z.of_nat ms = WOF.start_speed t * (WOF.start_speed t - 1) + 2 * 4560 /\
    4680 <= Z.of_nat ms <= 5025.
Proof.
  intros Ht. split; [apply (delayms_counts (Z.to_nat time)); [exact Ht|reflexivity]|].
  pose proof (start_speed_range t) as Hs.
  pose proof (spin_runs (WOF.Wheel (WOF.number w) (WOF.start_speed t) (WOF.hue w))
                ltac:(cbn [WOF.speed]; lia)) as R.
  cbv zeta in R. cbn [WOF.speed WOF.number WOF.hue] in R.
  unfold WOF.press. rewrite R. clear R.
  generalize dependent (WOF.start_speed t). intros s Hs.
  assert (s = 16 \/ s = 17 \/ s = 18 \/ s = 19 \/ s = 20 \/ s = 21 \/ s = 22 \/
          s = 23 \/ s = 24 \/ s = 25 \/ s = 26 \/ s = 27 \/ s = 28 \/ s = 29 \/
          s = 30 \/ s = 31) as C by lia.
  repeat destruct C as [C | C]; subst s;
    (eexists _, _, _, _;
     split; [vm_compute; reflexivity|];
     split; [reflexivity|];
     split; [rewrite track_length; vm_compute; reflexivity|];
     split; [vm_compute; reflexivity|];
     split; [vm_compute; reflexivity|vm_compute; split; discriminate]).
Qed.

Lemma spin_takes_five_seconds_witness :
  delayms 256 20 = Some (Z.to_nat 20).
Proof.
  destruct (spin_takes_five_seconds 3 20 (WOF.Wheel 0 0 0) ltac:(lia)) as [H _].
  exact H.
Defined.

(** ** States 5, 6 and 7 in a run from power-on *)

Lemma state6_tick (o : Bling.arg_order) (m : Bling.machine) :
  Bling.state m = 6 -> Bling.buf (Bling.tick o m) = Bling.NEO_cw (Bling.buf m).
Proof.
  destruct m as [b r s c h1 h2 p1 p2]. machine_fields. intros ->.
  unfold Bling.tick, Bling.animate, Bling.advance. machine_fields.
  destruct (decide _); reflexivity.
Qed.

Lemma state7_tick (o : Bling.arg_order) (m : Bling.machine) :
  Bling.state m = 7 -> length (Bling.NEO_hue (Bling.buf m)) = 16%nat ->
  Bling.buf (Bling.tick o m)
  = Bling.Buffer (replicate 16 (Bling.hue1 (Bling.tick o m)))
                 (Bling.NEO_bright (Bling.buf m)).
Proof.
  destruct m as [b r s c h1 h2 p1 p2]. machine_fields. intros -> Hlen.
  unfold Bling.tick, Bling.animate, Bling.advance. machine_fields.
  destruct (decide _); machine_fields; apply NEO_fill_replicate, Hlen.
Qed.

Lemma run_state (o : Bling.arg_order) (c h1 h2 p1 p2 : Z) (n : nat) :
  Bling.state (Bling.ticks o n (Bling.power_on c h1 h2 p1 p2))
  = l_state (Nat.iter n locals_step (Locals 0 c h1 h2 p1 p2)).
Proof.
  rewrite state_of_locals, locals_simulation_iter. reflexivity.
Qed.

Lemma run_hue1 (o : Bling.arg_order) (c h1 h2 p1 p2 : Z) (n : nat) :
  Bling.hue1 (Bling.ticks o n (Bling.power_on c h1 h2 p1 p2))
  = l_hue1 (Nat.iter n locals_step (Locals 0 c h1 h2 p1 p2)).
Proof.
  change (Bling.hue1 (Bling.ticks o n (Bling.power_on c h1 h2 p1 p2)))
    with (l_hue1 (locals_of (Bling.ticks o n (Bling.power_on c h1 h2 p1 p2)))).
  rewrite locals_simulation_iter. reflexivity.
Qed.

Lemma ticks_succ (o : Bling.arg_order) (n : nat) (m : Bling.machine) :
  Bling.ticks o (Datatypes.S n) m = Bling.tick o (Bling.ticks o n m).
Proof. reflexivity. Qed.

Lemma run_state_pass (o : Bling.arg_order) (c h1 h2 p1 p2 : Z) (n q : nat) :
  (1 <= n)%nat ->
  Bling.state (Bling.ticks o (n + q * Bling.cycle_length) (Bling.power_on c h1 h2 p1 p2))
  = l_state (Nat.iter n locals_step (Locals 0 c h1 h2 p1 p2)).
Proof. intros Hn. rewrite run_state, locals_period by exact Hn. reflexivity. Qed.

Lemma run_hue1_pass (o : Bling.arg_order) (c h1 h2 p1 p2 : Z) (n q : nat) :
  (1 <= n)%nat ->
  Bling.hue1 (Bling.ticks o (n + q * Bling.cycle_length) (Bling.power_on c h1 h2 p1 p2))
  = l_hue1 (Nat.iter n locals_step (Locals 0 c h1 h2 p1 p2)).
Proof. intros Hn. rewrite run_hue1, locals_period by exact Hn. reflexivity. Qed.

Lemma run_in_bounds (o : Bling.arg_order) (c h1 h2 p1 p2 : Z) (n : nat) :
  in_bounds (Bling.buf (Bling.ticks o n (Bling.power_on c h1 h2 p1 p2))).
Proof.
  apply in_bounds_ticks. constructor; try reflexivity.
  vm_compute. repeat constructor; congruence.
Qed.

(** The buffer [k] ticks into state 6 of pass [q]. *)
Lemma run_state6 (o : Bling.arg_order) (c h1 h2 p1 p2 : Z) (k q : nat) :
  (k <= 76)%nat ->
  Bling.buf (Bling.ticks o (k + 231 + q * Bling.cycle_length)
               (Bling.power_on c h1 h2 p1 p2))
  = Nat.iter k Bling.NEO_cw rainbow_buffer.
Proof.
  intros Hk. induction k as [|k IH].
  - change (0 + 231 + q * Bling.cycle_length)%nat
      with (Datatypes.S (230 + q * Bling.cycle_length)).
    rewrite ticks_succ.
    destruct (run_in_bounds o c h1 h2 p1 p2 (230 + q * Bling.cycle_length)) as [Hh Hb _].
    apply (state5_tick o _); [|exact Hh|exact Hb].
    rewrite run_state_pass by lia. vm_compute. reflexivity.
  - change (Datatypes.S k + 231 + q * Bling.cycle_length)%nat
      with (Datatypes.S (k + 231 + q * Bling.cycle_length)).
    rewrite ticks_succ.
    rewrite state6_tick; [rewrite IH by lia; reflexivity|].
    rewrite run_state_pass by lia.
    assert (C : all_from 76 0
                  (fun z => l_state (Nat.iter (Z.to_nat z + 231) locals_step
                                       (Locals 0 c h1 h2 p1 p2)) =? 6) = true)
      by (vm_compute; reflexivity).
    pose proof (all_from_spec _ _ _ C (Z.of_nat k) ltac:(lia)) as E.
    cbv beta in E. rewrite Nat2Z.id in E. apply Z.eqb_eq, E.
Qed.

(** X19.  In every pass [q] of every run, [k] ticks into state 6 (tick
    [k + 231 + 383 q] after power-on, [k] up to 76) cell [(i + k) mod 16]
    shows hue [12 i] at full brightness: the rainbow written by state 5 turns
    by one cell per tick, whatever the generator produced before. *)
Theorem rainbow_turns_one_cell_per_tick
    (o : Bling.arg_order) (c h1 h2 p1 p2 : Z) (k q i : nat) :
  (k <= 76)%nat -> (i < 16)%nat ->
  rd (Bling.NEO_hue
        (Bling.buf (Bling.ticks o (k + 231 + q * Bling.cycle_length)
                      (Bling.power_on c h1 h2 p1 p2))))
     ((i + k) mod 16) = 12 * Z.of_nat i /\
  rd (Bling.NEO_bright
        (Bling.buf (Bling.ticks o (k + 231 + q * Bling.cycle_length)
                      (Bling.power_on c h1 h2 p1 p2))))
     ((i + k) mod 16) = 6.
Proof.
  intros Hk Hi. rewrite run_state6 by exact Hk.
  destruct (iter_cw_in_place rainbow_buffer k i eq_refl eq_refl Hi) as [Gh Gb].
  rewrite Gh, Gb.
  split; do 16 (destruct i as [|i]; [reflexivity|]); lia.
Qed.

Lemma rainbow_turns_one_cell_per_tick_witness :
  rd (Bling.NEO_hue
        (Bling.buf (Bling.ticks Bling.LeftFirst (20 + 231 + 1 * Bling.cycle_length)
                      (Bling.power_on 1 2 3 4 5))))
     ((9 + 20) mod 16) = 12 * Z.of_nat 9.
Proof.
  destruct (rainbow_turns_one_cell_per_tick Bling.LeftFirst 1 2 3 4 5 20 1 9
              ltac:(lia) ltac:(lia)) as [H _].
  exact H.
Defined.

(** The buffer [j] ticks into state 7 of pass [q]. *)
Lemma run_state7 (o : Bling.arg_order) (c h1 h2 p1 p2 : Z) (j q : nat) :
  (j <= 76)%nat ->
  length (Bling.NEO_hue
            (Bling.buf (Bling.ticks o (j + 307 + q * Bling.cycle_length)
                          (Bling.power_on c h1 h2 p1 p2))))
  = 16%nat /\
  Bling.NEO_bright
    (Bling.buf (Bling.ticks o (j + 307 + q * Bling.cycle_length)
                  (Bling.power_on c h1 h2 p1 p2)))
  = replicate 16 6 /\
  ((1 <= j)%nat ->
   Bling.NEO_hue
     (Bling.buf (Bling.ticks o (j + 307 + q * Bling.cycle_length)
                   (Bling.power_on c h1 h2 p1 p2)))
   = replicate 16 ((3 * Z.of_nat j) mod 192)).
Proof.
  induction j as [|j IH]; intros Hj.
  - pose proof (run_state6 o c h1 h2 p1 p2 76 q ltac:(lia)) as E.
    change (0 + 307 + q * Bling.cycle_length)%nat
      with (76 + 231 + q * Bling.cycle_length)%nat.
    rewrite E.
    split; [vm_compute; reflexivity|]. split; [vm_compute; reflexivity|lia].
  - destruct (IH ltac:(lia)) as (Lh & Eb & _).
    change (Datatypes.S j + 307 + q * Bling.cycle_length)%nat
      with (Datatypes.S (j + 307 + q * Bling.cycle_length)).
    rewrite ticks_succ.
    assert (Hs : Bling.state (Bling.ticks o (j + 307 + q * Bling.cycle_length)
                                (Bling.power_on c h1 h2 p1 p2)) = 7).
    { rewrite run_state_pass by lia.
      assert (C : all_from 76 0
                    (fun z => l_state (Nat.iter (Z.to_nat z + 307) locals_step
                                         (Locals 0 c h1 h2 p1 p2)) =? 7) = true)
        by (vm_compute; reflexivity).
      pose proof (all_from_spec _ _ _ C (Z.of_nat j) ltac:(lia)) as E.
      cbv beta in E. rewrite Nat2Z.id in E. apply Z.eqb_eq, E. }
    rewrite (state7_tick o _ Hs Lh).
    cbn [Bling.NEO_hue Bling.NEO_bright]. rewrite length_replicate.
    split; [reflexivity|]. split; [exact Eb|]. intros _. f_equal.
    rewrite <- ticks_succ.
    change (Datatypes.S (j + 307 + q * Bling.cycle_length))
      with (Datatypes.S (j + 307) + q * Bling.cycle_length)%nat.
    rewrite run_hue1_pass by lia.
    assert (C : all_from 76 0
                  (fun z => l_hue1 (Nat.iter (Datatypes.S (Z.to_nat z + 307)) locals_step
                                      (Locals 0 c h1 h2 p1 p2))
                            =? (3 * (z + 1)) mod 192) = true)
      by (vm_compute; reflexivity).
    pose proof (all_from_spec _ _ _ C (Z.of_nat j) ltac:(lia)) as E.
    cbv beta in E. rewrite Nat2Z.id in E. apply Z.eqb_eq in E.
    rewrite E. f_equal. lia.
Qed.

(** X20.  In every pass [q] of every run, [k] ticks into state 7 (tick
    [k + 307 + 383 q] after power-on, [k] from 1 to 76) all sixteen pixels
    show the one hue [3 k mod 192] at full brightness: the whole ring steps
    through the wheel three hues per tick. *)
Theorem ring_steps_through_the_wheel
    (o : Bling.arg_order) (c h1 h2 p1 p2 : Z) (k q : nat) :
  (1 <= k <= 76)%nat ->
  Bling.buf (Bling.ticks o (k + 307 + q * Bling.cycle_length)
               (Bling.power_on c h1 h2 p1 p2))
  = Bling.Buffer (replicate 16 ((3 * Z.of_nat k) mod 192)) (replicate 16 6).
Proof.
  intros Hk.
  destruct (run_state7 o c h1 h2 p1 p2 k q ltac:(lia)) as (_ & Eb & Eh).
  destruct (Bling.buf _) as [hs bs]. cbn [Bling.NEO_hue Bling.NEO_bright] in *.
  rewrite Eb, Eh by lia. reflexivity.
Qed.

Lemma ring_steps_through_the_wheel_witness :
  Bling.buf (Bling.ticks Bling.RightFirst (70 + 307 + 2 * Bling.cycle_length)
               (Bling.power_on 1 2 3 4 5))
  = Bling.Buffer (replicate 16 ((3 * Z.of_nat 70) mod 192)) (replicate 16 6).
Proof.
  apply (ring_steps_through_the_wheel Bling.RightFirst 1 2 3 4 5 70 2). lia.
Defined.

(** ** States 3 and 4: what the generator writes *)

Lemma rd_insert_eq (l : list Z) (i : nat) (x : Z) :
  (i < length l)%nat -> rd (<[i := x]> l) i = x.
Proof. intros H. unfold rd. rewrite list_lookup_insert_eq by exact H. reflexivity. Qed.

Lemma rd_insert_ne (l : list Z) (i j : nat) (x : Z) :
  i <> j -> rd (<[i := x]> l) j = rd l j.
Proof. intros H. unfold rd. rewrite list_lookup_insert_ne by exact H. reflexivity. Qed.

Lemma state3_loop (b : Bling.buffer) (r : Z) :
  in_bounds b ->
  let res := for_upto 16
       (fun i (br : Bling.buffer * Z) =>
          let (h, r') := Bling.prng 192 (snd br) in
          (Bling.NEO_set (Z.of_nat i) (u8 h) (fst br), r'))
       (b, r) in
  snd res = Nat.iter 16 Bling.lfsr r /\
  forall j, (j < 16)%nat ->
    rd (Bling.NEO_hue (fst res)) j = Nat.iter (Datatypes.S j) Bling.lfsr r mod 192 /\
    rd (Bling.NEO_bright (fst res)) j = 6.
Proof.
  intros Hb res. subst res.
  pose proof (for_upto_ind
    (fun i (br : Bling.buffer * Z) =>
       snd br = Nat.iter i Bling.lfsr r /\ in_bounds (fst br) /\
       forall j, (j < i)%nat ->
         rd (Bling.NEO_hue (fst br)) j = Nat.iter (Datatypes.S j) Bling.lfsr r mod 192 /\
         rd (Bling.NEO_bright (fst br)) j = 6)
    16
    (fun i (br : Bling.buffer * Z) =>
       let (h, r') := Bling.prng 192 (snd br) in
       (Bling.NEO_set (Z.of_nat i) (u8 h) (fst br), r'))
    (b, r)) as L.
  destruct L as (Hr & _ & Hcells).
  - split; [reflexivity|]. split; [exact Hb|]. intros j Hj. lia.
  - intros i [b' r'] Hi (Er & Hib & Hc). cbn [fst snd Bling.prng] in *. subst r'.
    split; [reflexivity|]. split; [apply in_bounds_set, Hib|].
    destruct Hib as [Lh Lb _]. intros j Hj.
    unfold Bling.NEO_set. cbn [Bling.NEO_hue Bling.NEO_bright]. rewrite Nat2Z.id.
    destruct (decide (j = i)) as [->|Hne].
    + rewrite !rd_insert_eq by lia. split; [|reflexivity].
      pose proof (Z.mod_pos_bound (Bling.lfsr (Nat.iter i Bling.lfsr r)) 192 ltac:(lia)).
      rewrite u8_small by lia. reflexivity.
    + rewrite !rd_insert_ne by lia. apply Hc. lia.
  - split; [exact Hr|exact Hcells].
Qed.

(** X21.  One tick in state 3 makes 16 calls of [prng(192)] and writes them
    in order: cell [i] gets the [(i+1)]-th generator state from [rn] modulo
    192 as its hue, at full brightness, whatever the buffer held; the machine
    goes on to state 4. *)
Theorem randomise_fills_in_order (o : Bling.arg_order) (m : Bling.machine) (i : nat) :
  Bling.state m = 3 -> in_bounds (Bling.buf m) -> (i < 16)%nat ->
  rd (Bling.NEO_hue (Bling.buf (Bling.tick o m))) i
  = Nat.iter (Datatypes.S i) Bling.lfsr (Bling.rn m) mod 192 /\
  rd (Bling.NEO_bright (Bling.buf (Bling.tick o m))) i = 6 /\
  Bling.rn (Bling.tick o m) = Nat.iter 16 Bling.lfsr (Bling.rn m) /\
  Bling.state (Bling.tick o m) = 4 /\
  Bling.counter (Bling.tick o m) = 76.
Proof.
  destruct m as [b r s c h1 h2 p1 p2]. machine_fields. intros -> Hb Hi.
  pose proof (state3_loop b r Hb) as L. cbv zeta in L.
  unfold Bling.tick, Bling.animate. machine_fields.
  destruct (for_upto 16 _ (b, r)) as [b' r']. cbn [fst snd] in L.
  destruct L as [Er Hc]. destruct (Hc i Hi) as [Eh Eb].
  unfold Bling.advance. machine_fields.
  change (decide (u8 (1 - 1) = 0)) with (left (eq_refl 0) : Decision (0 = 0)).
  machine_fields. repeat split; assumption || reflexivity.
Qed.

Lemma randomise_fills_in_order_witness :
  rd (Bling.NEO_hue
        (Bling.buf (Bling.tick Bling.LeftFirst
                      (Bling.Machine (Bling.Buffer (replicate 16 0) (replicate 16 0))
                         Bling.seed 3 76 0 0 0 0)))) 4
  = Nat.iter 5 Bling.lfsr Bling.seed mod 192.
Proof.
  assert (Hb : in_bounds (Bling.Buffer (replicate 16 0) (replicate 16 0))).
  { constructor; try reflexivity. vm_compute. repeat constructor; congruence. }
  destruct (randomise_fills_in_order Bling.LeftFirst
              (Bling.Machine (Bling.Buffer (replicate 16 0) (replicate 16 0))
                 Bling.seed 3 76 0 0 0 0) 4 eq_refl Hb ltac:(lia)) as [H _].
  exact H.
Defined.

Lemma state4_loop (b : Bling.buffer) (r : Z) :
  length (Bling.NEO_hue b) = 16%nat ->
  (forall j, (j < 16)%nat -> on_wheel (rd (Bling.NEO_hue b) j)) ->
  let res := for_upto 16
       (fun i (br : Bling.buffer * Z) =>
          let (v, r') := Bling.prng 8 (snd br) in
          let h := Bling.wrap192 (u8 (rd (Bling.NEO_hue (fst br)) i + v)) in
          (Bling.Buffer (<[i := h]> (Bling.NEO_hue (fst br))) (Bling.NEO_bright (fst br)), r'))
       (b, r) in
  snd res = Nat.iter 16 Bling.lfsr r /\
  Bling.NEO_bright (fst res) = Bling.NEO_bright b /\
  forall j, (j < 16)%nat ->
    rd (Bling.NEO_hue (fst res)) j
    = (rd (Bling.NEO_hue b) j + Nat.iter (Datatypes.S j) Bling.lfsr r mod 8) mod 192.
Proof.
  intros Hlen Hw res. subst res.
  pose proof (for_upto_ind
    (fun i (br : Bling.buffer * Z) =>
       snd br = Nat.iter i Bling.lfsr r /\
       Bling.NEO_bright (fst br) = Bling.NEO_bright b /\
       length (Bling.NEO_hue (fst br)) = 16%nat /\
       (forall j, (j < i)%nat ->
          rd (Bling.NEO_hue (fst br)) j
          = (rd (Bling.NEO_hue b) j + Nat.iter (Datatypes.S j) Bling.lfsr r mod 8) mod 192) /\
       (forall j, (i <= j)%nat -> rd (Bling.NEO_hue (fst br)) j = rd (Bling.NEO_hue b) j))
    16
    (fun i (br : Bling.buffer * Z) =>
       let (v, r') := Bling.prng 8 (snd br) in
       let h := Bling.wrap192 (u8 (rd (Bling.NEO_hue (fst br)) i + v)) in
       (Bling.Buffer (<[i := h]> (Bling.NEO_hue (fst br))) (Bling.NEO_bright (fst br)), r'))
    (b, r)) as L.
  destruct L as (Hr & Hbr & _ & Hdone & _).
  - split; [reflexivity|]. split; [reflexivity|]. split; [exact Hlen|].
    split; [intros j Hj; lia|reflexivity].
  - intros i [b' r'] Hi (Er & Ebr & Lh & Hdone & Htodo).
    cbn [fst snd Bling.prng Bling.NEO_hue Bling.NEO_bright] in *. subst r'.
    split; [reflexivity|]. split; [exact Ebr|].
    split; [rewrite length_insert; exact Lh|]. split.
    + intros j Hj. destruct (decide (j = i)) as [->|Hne].
      * rewrite rd_insert_eq by lia. rewrite (Htodo i) by lia.
        pose proof (Hw i Hi) as Hwi. unfold on_wheel in Hwi.
        pose proof (Z.mod_pos_bound (Bling.lfsr (Nat.iter i Bling.lfsr r)) 8 ltac:(lia)).
        rewrite Nat.iter_succ.
        unfold Bling.wrap192, u8. repeat case_decide; Z.div_mod_to_equations; lia.
      * rewrite rd_insert_ne by lia. apply Hdone. lia.
    + intros j Hj. rewrite rd_insert_ne by lia. apply Htodo. lia.
  - split; [exact Hr|]. split; [exact Hbr|exact Hdone].
Qed.

(** X22.  One tick in state 4 makes 16 calls of [prng(8)] and moves every
    hue forward round the wheel by the value drawn for its cell, a step of 0
    to 7 taken modulo 192; no brightness changes. *)
Theorem drift_moves_every_hue_forward (o : Bling.arg_order) (m : Bling.machine) (i : nat) :
  Bling.state m = 4 ->
  length (Bling.NEO_hue (Bling.buf m)) = 16%nat ->
  (forall j, (j < 16)%nat -> on_wheel (rd (Bling.NEO_hue (Bling.buf m)) j)) ->
  (i < 16)%nat ->
  rd (Bling.NEO_hue (Bling.buf (Bling.tick o m))) i
  = (rd (Bling.NEO_hue (Bling.buf m)) i
     + Nat.iter (Datatypes.S i) Bling.lfsr (Bling.rn m) mod 8) mod 192 /\
  0 <= Nat.iter (Datatypes.S i) Bling.lfsr (Bling.rn m) mod 8 <= 7 /\
  Bling.NEO_bright (Bling.buf (Bling.tick o m)) = Bling.NEO_bright (Bling.buf m) /\
  Bling.rn (Bling.tick o m) = Nat.iter 16 Bling.lfsr (Bling.rn m).
Proof.
  destruct m as [b r s c h1 h2 p1 p2]. machine_fields. intros -> Hlen Hw Hi.
  pose proof (state4_loop b r Hlen Hw) as L. cbv zeta in L.
  unfold Bling.tick, Bling.animate. machine_fields.
  destruct (for_upto 16 _ (b, r)) as [b' r']. cbn [fst snd] in L.
  destruct L as (Er & Ebr & Hc).
  unfold Bling.advance. machine_fields.
  pose proof (Z.mod_pos_bound (Nat.iter (Datatypes.S i) Bling.lfsr r) 8 ltac:(lia)).
  destruct (decide _); machine_fields;
    (split; [apply Hc, Hi|]; split; [lia|]; split; assumption).
Qed.

Lemma drift_moves_every_hue_forward_witness :
  Bling.NEO_bright
    (Bling.buf (Bling.tick Bling.LeftFirst
                  (Bling.Machine (Bling.Buffer (replicate 16 190) (replicate 16 3))
                     Bling.seed 4 76 0 0 0 0)))
  = replicate 16 3.
Proof.
  assert (Hw : forall j, (j < 16)%nat -> on_wheel (rd (replicate 16 190) j)).
  { intros j Hj. rewrite rd_replicate by exact Hj. unfold on_wheel. lia. }
  destruct (drift_moves_every_hue_forward Bling.LeftFirst
              (Bling.Machine (Bling.Buffer (replicate 16 190) (replicate 16 3))
                 Bling.seed 4 76 0 0 0 0) 2 eq_refl eq_refl Hw ltac:(lia))
    as (_ & _ & H & _).
  exact H.
Defined.

(** ** State 1: two comets with fading tails *)

Lemma state1_tick (o : Bling.arg_order) (m : Bling.machine) (i : nat) :
  Bling.state m = 1 -> in_bounds (Bling.buf m) -> (i < 16)%nat ->
  (Z.of_nat i = Z.land (Bling.ptr1 m + 1) 15 \/ Z.of_nat i = Z.land (Bling.ptr2 m + 1) 15 ->
   rd (Bling.NEO_bright (Bling.buf (Bling.tick o m))) i = 6) /\
  (Z.of_nat i <> Z.land (Bling.ptr1 m + 1) 15 ->
   Z.of_nat i <> Z.land (Bling.ptr2 m + 1) 15 ->
   rd (Bling.NEO_bright (Bling.buf (Bling.tick o m))) i
   = fade_out_step (rd (Bling.NEO_bright (Bling.buf m)) i)).
Proof.
  destruct m as [b r s c h1 h2 p1 p2]. machine_fields. intros -> [Lh Lb _] Hi.
  assert (Hbuf : Bling.buf (Bling.tick o (Bling.Machine b r 1 c h1 h2 p1 p2))
                 = Bling.NEO_set (Z.land (p2 + 1) 15) (Bling.wrap192 (u8 (h2 + 4)))
                     (Bling.NEO_set (Z.land (p1 + 1) 15) (Bling.wrap192 (u8 (h1 + 4)))
                        (Bling.NEO_fadeOut b))).
  { unfold Bling.tick, Bling.animate, Bling.advance. machine_fields.
    destruct (decide _); reflexivity. }
  rewrite Hbuf, NEO_fadeOut_map by exact Lb.
  unfold Bling.NEO_set. cbn [Bling.NEO_hue Bling.NEO_bright].
  rewrite !land15.
  pose proof (Z.mod_pos_bound (p1 + 1) 16 ltac:(lia)) as B1.
  pose proof (Z.mod_pos_bound (p2 + 1) 16 ltac:(lia)) as B2.
  split.
  - intros Hhead.
    destruct (decide (Z.of_nat i = (p2 + 1) mod 16)) as [E2|N2].
    + rewrite <- E2, Nat2Z.id.
      apply rd_insert_eq. rewrite length_insert, length_map. lia.
    + rewrite rd_insert_ne by lia.
      destruct Hhead as [E1|E2]; [|contradiction].
      rewrite <- E1, Nat2Z.id. apply rd_insert_eq. rewrite length_map. lia.
  - intros N1 N2. rewrite !rd_insert_ne by lia. apply rd_map. lia.
Qed.

Lemma run_state1_locals (o : Bling.arg_order) (c h1 h2 p1 p2 : Z) (k q : nat) :
  (k <= 75)%nat ->
  Bling.state (Bling.ticks o (k + 1 + q * Bling.cycle_length)
                 (Bling.power_on c h1 h2 p1 p2)) = 1 /\
  Bling.ptr1 (Bling.ticks o (k + 1 + q * Bling.cycle_length)
                (Bling.power_on c h1 h2 p1 p2)) = Z.of_nat k mod 16 /\
  Bling.ptr2 (Bling.ticks o (k + 1 + q * Bling.cycle_length)
                (Bling.power_on c h1 h2 p1 p2)) = (Z.of_nat k + 8) mod 16.
Proof.
  intros Hk.
  set (m := Bling.ticks o (k + 1 + q * Bling.cycle_length) (Bling.power_on c h1 h2 p1 p2)).
  change (Bling.state m) with (l_state (locals_of m)).
  change (Bling.ptr1 m) with (l_ptr1 (locals_of m)).
  change (Bling.ptr2 m) with (l_ptr2 (locals_of m)).
  subst m. rewrite locals_simulation_iter.
  change (locals_of (Bling.power_on c h1 h2 p1 p2)) with (Locals 0 c h1 h2 p1 p2).
  rewrite locals_period by lia.
  assert (C : all_from 76 0
                (fun z =>
                   let l := Nat.iter (Z.to_nat z + 1) locals_step (Locals 0 c h1 h2 p1 p2) in
                   (l_state l =? 1) && (l_ptr1 l =? z mod 16)
                   && (l_ptr2 l =? (z + 8) mod 16)) = true)
    by (vm_compute; reflexivity).
  pose proof (all_from_spec _ _ _ C (Z.of_nat k) ltac:(lia)) as E.
  cbv beta zeta in E. rewrite Nat2Z.id in E.
  apply andb_true_iff in E as [E E3]. apply andb_true_iff in E as [E1 E2].
  apply Z.eqb_eq in E1, E2, E3. split; [exact E1|]. split; [exact E2|exact E3].
Qed.

Lemma fade_out_levels (x : Z) :
  0 <= x <= 6 -> fade_out_step x = Z.max 0 (x - 1).
Proof.
  intros H. unfold fade_out_step, u8. case_decide.
  - rewrite Z.mod_small by lia. lia.
  - lia.
Qed.

(** Cells a comet has passed since state 1 began hold the tail value; the
    others have only faded. *)
Lemma run_state1 (o : Bling.arg_order) (c h1 h2 p1 p2 : Z) (q k : nat) :
  (k <= 76)%nat ->
  forall i, (i < 16)%nat ->
    let a := (Z.of_nat k - Z.of_nat i) mod 8 in
    let x := rd (Bling.NEO_bright
                   (Bling.buf (Bling.ticks o (k + 1 + q * Bling.cycle_length)
                                 (Bling.power_on c h1 h2 p1 p2)))) i in
    (a < Z.of_nat k -> x = Z.max 0 (6 - a)) /\
    (Z.of_nat k <= a -> 0 <= x <= Z.max 0 (6 - Z.of_nat k)).
Proof.
  induction k as [|k IH]; intros Hk i Hi a x.
  - subst a x. split; [intros Ha; exfalso; Z.div_mod_to_equations; lia|].
    intros _.
    destruct (run_in_bounds o c h1 h2 p1 p2 (0 + 1 + q * Bling.cycle_length))
      as [_ _ Hl].
    pose proof (level_rd _ i Hl). lia.
  - specialize (IH ltac:(lia) i Hi). cbv zeta in IH. destruct IH as [IHset IHold].
    subst x.
    change (Datatypes.S k + 1 + q * Bling.cycle_length)%nat
      with (Datatypes.S (k + 1 + q * Bling.cycle_length)).
    rewrite ticks_succ.
    destruct (run_state1_locals o c h1 h2 p1 p2 k q ltac:(lia)) as (Es & E1 & E2).
    pose proof (run_in_bounds o c h1 h2 p1 p2 (k + 1 + q * Bling.cycle_length)) as Hib.
    destruct (state1_tick o _ i Es Hib Hi) as [Hhead Htail].
    rewrite E1, E2, !land15 in Hhead, Htail.
    destruct Hib as [_ _ Hl]. pose proof (level_rd _ i Hl) as Hx.
    set (old := rd (Bling.NEO_bright
                      (Bling.buf (Bling.ticks o (k + 1 + q * Bling.cycle_length)
                                    (Bling.power_on c h1 h2 p1 p2)))) i) in *.
    subst a.
    destruct (decide ((Z.of_nat (Datatypes.S k) - Z.of_nat i) mod 8 = 0)) as [Ea|Na].
    + rewrite Hhead; [rewrite Ea; split; intros; lia|].
      clear - Ea Hi. Z.div_mod_to_equations. lia.
    + rewrite Htail; [| clear - Na Hi; Z.div_mod_to_equations; lia
                      | clear - Na Hi; Z.div_mod_to_equations; lia].
      rewrite fade_out_levels by exact Hx.
      assert (Enext : (Z.of_nat (Datatypes.S k) - Z.of_nat i) mod 8
                      = (Z.of_nat k - Z.of_nat i) mod 8 + 1).
      { clear - Na. Z.div_mod_to_equations. lia. }
      rewrite Enext. split; intros Ha.
      * rewrite IHset by lia. lia.
      * specialize (IHold ltac:(lia)). lia.
Qed.

(** X23.  In every pass, from the sixth tick of state 1 on, the brightness
    of cell [i] is [6 - (k - i) mod 8], or 0 where that is negative: two
    comets eight cells apart, each with its head at full brightness and a
    tail falling by one level per cell, on a dark ring, whatever the buffer
    held when state 1 began. *)
Theorem two_comets_with_tails
    (o : Bling.arg_order) (c h1 h2 p1 p2 : Z) (k q i : nat) :
  (6 <= k <= 76)%nat -> (i < 16)%nat ->
  rd (Bling.NEO_bright
        (Bling.buf (Bling.ticks o (k + 1 + q * Bling.cycle_length)
                      (Bling.power_on c h1 h2 p1 p2)))) i
  = Z.max 0 (6 - (Z.of_nat k - Z.of_nat i) mod 8).
Proof.
  intros Hk Hi.
  pose proof (run_state1 o c h1 h2 p1 p2 q k ltac:(lia) i Hi) as H.
  cbv zeta in H. destruct H as [Hset Hold].
  pose proof (Z.mod_pos_bound (Z.of_nat k - Z.of_nat i) 8 ltac:(lia)) as Ha.
  destruct (Z_lt_le_dec ((Z.of_nat k - Z.of_nat i) mod 8) (Z.of_nat k)) as [Hlt|Hge].
  - apply Hset, Hlt.
  - specialize (Hold Hge). lia.
Qed.

Lemma two_comets_with_tails_witness :
  rd (Bling.NEO_bright
        (Bling.buf (Bling.ticks Bling.LeftFirst (30 + 1 + 1 * Bling.cycle_length)
                      (Bling.power_on 1 2 3 4 5)))) 12
  = Z.max 0 (6 - (Z.of_nat 30 - Z.of_nat 12) mod 8).
Proof.
  apply (two_comets_with_tails Bling.LeftFirst 1 2 3 4 5 30 1 12); lia.
Defined.
